(** * DustyVideoSummarizer: the analysis pipeline and the compression stage

    A shallow embedding of [convert.cjs] (the orchestrator, here in its
    instrumented copy [archived/convert-debug-1742941635078.cjs]) and of
    [compress.cjs] (the retrying compressor and its batch driver), with the
    properties the specification states about them.

    Conventions of the embedding
    - JavaScript strings are [string]s: sequences of 8-bit code units, read
      as the Latin-1 part of UTF-16.
    - JavaScript numbers are [number]s: a rational, one of the two
      infinities, or NaN.
    - A [throw] (or a rejected promise) is the [Throw] constructor of
      [result]; [await]ed calls are sequenced with [x <- e ;; k].
    - Everything the scripts obtain from outside (ffprobe, ffmpeg, the chat
      and transcription services, Finder, the random suffix) is read from an
      explicit record of outcomes, one field per call.
    - File-system paths are lists of components, the root first. *)

From Stdlib Require Import Ascii String QArith Qround Lia.
From stdpp Require Import gmap strings list fin_maps sorting.
From Equations Require Import Equations.

Local Open Scope string_scope.

(** ** Text: the String.prototype methods the scripts call *)

Module Text.

Definition code (c : ascii) : N := Ascii.N_of_ascii c.

Definition between (lo hi : N) (c : ascii) : bool :=
  ((lo <=? code c)%N && (code c <=? hi)%N)%bool.

(** WhiteSpace and LineTerminator code units below 256: TAB, LF, VT, FF,
    CR, SPACE and NBSP. *)
Definition is_space (c : ascii) : bool :=
  (between 9 13 c || (code c =? 32)%N || (code c =? 160)%N)%bool.

Definition is_upper (c : ascii) : bool :=
  (between 65 90 c
   || (between 192 222 c && negb (code c =? 215)%N))%bool.

Definition lower_char (c : ascii) : ascii :=
  if is_upper c then Ascii.ascii_of_N (code c + 32) else c.

Fixpoint map_chars (f : ascii -> ascii) (s : string) : string :=
  match s with
  | EmptyString => EmptyString
  | String c s' => String (f c) (map_chars f s')
  end.

(** [s.toLowerCase()] *)
Definition toLowerCase (s : string) : string := map_chars lower_char s.

Fixpoint trimStart (s : string) : string :=
  match s with
  | EmptyString => EmptyString
  | String c s' => if is_space c then trimStart s' else s
  end.

Fixpoint trimEnd (s : string) : string :=
  match s with
  | EmptyString => EmptyString
  | String c s' =>
      match trimEnd s' with
      | EmptyString => if is_space c then EmptyString else String c EmptyString
      | r => String c r
      end
  end.

(** [s.trim()] *)
Definition trim (s : string) : string := trimEnd (trimStart s).

(** [s.startsWith(p)] *)
Definition startsWith (s p : string) : bool := String.prefix p s.

(** [s.endsWith(p)] *)
Fixpoint endsWith (s p : string) : bool :=
  (String.eqb s p
   || match s with
      | EmptyString => false
      | String _ s' => endsWith s' p
      end)%bool.

(** [s.includes(p)] *)
Fixpoint includes (s p : string) : bool :=
  (String.prefix p s
   || match s with
      | EmptyString => false
      | String _ s' => includes s' p
      end)%bool.

(** [s.replace(/^p/, empty)] for a literal [p]. *)
Fixpoint dropPrefix (p s : string) : option string :=
  match p, s with
  | EmptyString, _ => Some s
  | String a p', String b s' =>
      if Ascii.eqb a b then dropPrefix p' s' else None
  | String _ _, EmptyString => None
  end.

Definition removeLeading (p s : string) : string :=
  match dropPrefix p s with Some r => r | None => s end.

(** [s.replace(/p$/, r)] for a literal, non-empty [p]: the pattern can
    only match the last [length p] code units. *)
Fixpoint replaceTrailing (p r s : string) : string :=
  if String.eqb s p then r
  else match s with
       | EmptyString => EmptyString
       | String c s' => String c (replaceTrailing p r s')
       end.

(** The character class [[a-z0-9-]] of the slug. *)
Definition is_slug_char (c : ascii) : bool :=
  (between 97 122 c || between 48 57 c || (code c =? 45)%N)%bool.

Definition hyphen : ascii := "-"%char.

(** [s.replace(/[^a-z0-9-]/g, "-")] *)
Definition replaceUnsafe (s : string) : string :=
  map_chars (fun c => if is_slug_char c then c else hyphen) s.

(** [s.replace(/-+/g, "-")]: every maximal run of hyphens becomes one. *)
Fixpoint collapseHyphens (s : string) : string :=
  match s with
  | EmptyString => EmptyString
  | String c s' =>
      if Ascii.eqb c hyphen then
        match s' with
        | String d _ =>
            if Ascii.eqb d hyphen then collapseHyphens s'
            else String c (collapseHyphens s')
        | EmptyString => String c EmptyString
        end
      else String c (collapseHyphens s')
  end.

(** [s.replace(/^-|-$/g, empty)]: the first alternative matches one hyphen at
    index 0, the second one hyphen at the last index of what follows. *)
Definition stripLeadingHyphen (s : string) : string :=
  match s with
  | String c s' => if Ascii.eqb c hyphen then s' else s
  | EmptyString => EmptyString
  end.

Fixpoint stripTrailingHyphen (s : string) : string :=
  match s with
  | EmptyString => EmptyString
  | String c EmptyString => if Ascii.eqb c hyphen then EmptyString else s
  | String c s' => String c (stripTrailingHyphen s')
  end.

Definition stripEdgeHyphens (s : string) : string :=
  stripTrailingHyphen (stripLeadingHyphen s).

(** The chain applied to the model's answer in [generateShortName]
    (convert, lines 77-82). *)
Definition sanitize (content : string) : string :=
  stripEdgeHyphens
    (collapseHyphens (replaceUnsafe (toLowerCase (trim content)))).

(** What the chain produces: only slug characters, no two hyphens in a row,
    no hyphen at either end. *)
Fixpoint every (P : ascii -> bool) (s : string) : bool :=
  match s with
  | EmptyString => true
  | String c s' => (P c && every P s')%bool
  end.

Definition leadingHyphen (s : string) : bool :=
  match s with
  | String c _ => Ascii.eqb c hyphen
  | EmptyString => false
  end.

Fixpoint trailingHyphen (s : string) : bool :=
  match s with
  | EmptyString => false
  | String c EmptyString => Ascii.eqb c hyphen
  | String _ s' => trailingHyphen s'
  end.

Fixpoint doubleHyphen (s : string) : bool :=
  match s with
  | EmptyString => false
  | String c s' =>
      ((Ascii.eqb c hyphen && leadingHyphen s') || doubleHyphen s')%bool
  end.

Definition isSlug (s : string) : bool :=
  (every is_slug_char s && negb (doubleHyphen s)
   && negb (leadingHyphen s) && negb (trailingHyphen s))%bool.

End Text.

(** ** Values: numbers, parsed JSON, thrown errors *)

Module Js.

(** A JavaScript number. *)
Inductive number : Type :=
| Fin (q : Q)
| PosInf
| NegInf
| NaN.

(** [a < b] on numbers; every comparison with NaN is false. *)
Definition num_lt (a b : number) : bool :=
  match a, b with
  | NaN, _ | _, NaN => false
  | Fin x, Fin y => negb (Qle_bool y x)
  | Fin _, PosInf => true
  | Fin _, NegInf => false
  | PosInf, _ => false
  | NegInf, NegInf => false
  | NegInf, _ => true
  end.

(** [a > b] *)
Definition num_gt (a b : number) : bool := num_lt b a.

Definition num_truthy (n : number) : bool :=
  match n with
  | Fin q => negb (Qeq_bool q 0)
  | NaN => false
  | PosInf | NegInf => true
  end.

Set Warnings "-register-all".

(** What [JSON.parse] returns. An array also carries the named properties
    assigned to it after parsing ([JSON.parse] itself leaves them empty). *)
Inductive json : Type :=
| JNull
| JBool (b : bool)
| JNum (n : number)
| JStr (s : string)
| JArr (items : list json) (named : list (string * json))
| JObj (fields : list (string * json)).

(** A value read from a property: [None] is [undefined]. *)
Definition value : Type := option json.

Inductive jstype : Type :=
| TUndefined | TObject | TBoolean | TNumber | TString.

(** [typeof v] *)
Definition typeof (v : value) : jstype :=
  match v with
  | None => TUndefined
  | Some JNull | Some (JArr _ _) | Some (JObj _) => TObject
  | Some (JBool _) => TBoolean
  | Some (JNum _) => TNumber
  | Some (JStr _) => TString
  end.

Definition is_type (t : jstype) (v : value) : bool :=
  match t, typeof v with
  | TUndefined, TUndefined | TObject, TObject | TBoolean, TBoolean
  | TNumber, TNumber | TString, TString => true
  | _, _ => false
  end.

(** ToBoolean, as [!v] and [v ? a : b] apply it. *)
Definition truthy (v : value) : bool :=
  match v with
  | None | Some JNull => false
  | Some (JBool b) => b
  | Some (JNum n) => num_truthy n
  | Some (JStr s) => negb (String.eqb s EmptyString)
  | Some (JArr _ _) | Some (JObj _) => true
  end.

(** A computation that returns or throws. *)
Inductive result (A : Type) : Type :=
| Ok (a : A)
| Throw (message : string).
Arguments Ok {A} a.
Arguments Throw {A} message.

Definition bind {A B : Type} (r : result A) (k : A -> result B) : result B :=
  match r with
  | Ok a => k a
  | Throw m => Throw m
  end.

(** [try { r } catch (error) { throw new Error(m) }] *)
Definition rethrow {A : Type} (m : string) (r : result A) : result A :=
  match r with
  | Ok a => Ok a
  | Throw _ => Throw m
  end.

Definition is_ok {A : Type} (r : result A) : bool :=
  match r with Ok _ => true | Throw _ => false end.

Fixpoint assoc (k : string) (l : list (string * json)) : value :=
  match l with
  | [] => None
  | (k', v) :: l' => if String.eqb k k' then Some v else assoc k l'
  end.

Fixpoint assoc_set (k : string) (v : json) (l : list (string * json))
  : list (string * json) :=
  match l with
  | [] => [(k, v)]
  | (k', v') :: l' =>
      if String.eqb k k' then (k, v) :: l' else (k', v') :: assoc_set k v l'
  end.

(** [o.k] for the property names the scripts read, none of which a
    primitive wrapper or [Array.prototype] defines. *)
Definition get (o : json) (k : string) : result value :=
  match o with
  | JNull => Throw "TypeError: Cannot read properties of null"
  | JObj fields => Ok (assoc k fields)
  | JArr _ named => Ok (assoc k named)
  | JBool _ | JNum _ | JStr _ => Ok None
  end.

(** [o.k = v] in a sloppy-mode CommonJS module: ignored on a primitive. *)
Definition set (o : json) (k : string) (v : json) : result json :=
  match o with
  | JNull => Throw "TypeError: Cannot set properties of null"
  | JObj fields => Ok (JObj (assoc_set k v fields))
  | JArr items named => Ok (JArr items (assoc_set k v named))
  | JBool _ | JNum _ | JStr _ => Ok o
  end.

End Js.

Notation "x <- e ;; k" := (Js.bind e (fun x => k))
  (at level 100, e at next level, right associativity).

(** ** Content analyzer (convert, lines 395-611) *)

Module Analyzer.
Import Text Js.

(** What [analyzeInitialFrame] obtains from outside. A reply is
    [response.choices[0].message.content], [None] when it is [null]. *)
Record initial_probe : Type := {
  ffprobe_duration : result number;   (* metadata.format.duration *)
  screenshot : result unit;           (* the frame at 20% and its readFile *)
  initial_reply : result (option string)
}.

(** The object [analyzeInitialFrame] returns, [{ ...analysis, duration }],
    through the four properties [processVideo] destructures. *)
Record AnalysisResult : Type := {
  description : json;
  needsTranscript : bool;
  additionalKeyframes : number;
  duration : number
}.

(** The object [determineImportance] returns: the parsed reply itself,
    through the three properties [processVideo] reads. *)
Record ImportanceAssessment : Type := {
  importance : number;
  reason : json;
  fullDescription : json
}.

Definition failed_analysis : string :=
  "Failed to get valid analysis from OpenAI".

(** Lines 473-477 and 584-588: strip the Markdown fence around the reply. *)
Definition unfence (content : string) : string :=
  trim (replaceTrailing (String "010" "```") EmptyString
          (removeLeading ("```json" +:+ String "010" EmptyString) (trim content))).

Section WithBuiltins.

(** [JSON.parse]; [None] is a SyntaxError. *)
Variable JSON_parse : string -> option json.

Definition parse_reply (content : option string) : result json :=
  match content with
  | None => Throw "TypeError: Cannot read properties of undefined"
  | Some c =>
      match JSON_parse (unfence c) with
      | Some v => Ok v
      | None => Throw "SyntaxError: Unexpected token in JSON"
      end
  end.

(** Lines 482-499, the body of the [try] after [JSON.parse]. The [||] chain
    of the validation is evaluated left to right, so the two comparisons are
    reached only for a number. *)
Definition checkInitial (dur : number) (parsed : json) : result AnalysisResult :=
  analysis <- (if num_gt dur (Fin 5)
               then set parsed "needsTranscript" (JBool true)
               else Ok parsed) ;;
  d <- get analysis "description" ;;
  nt <- get analysis "needsTranscript" ;;
  kf <- get analysis "additionalKeyframes" ;;
  if (negb (truthy d)
      || negb (is_type TBoolean nt)
      || negb (is_type TNumber kf))%bool
  then Throw "Invalid response format from OpenAI"
  else
    match d, nt, kf with
    | Some dv, Some (JBool b), Some (JNum n) =>
        if (num_lt n (Fin 0) || num_gt n (Fin 4))%bool
        then Throw "Invalid response format from OpenAI"
        else Ok {| description := dv; needsTranscript := b;
                   additionalKeyframes := n; duration := dur |}
    | _, _, _ => Throw "Invalid response format from OpenAI"
    end.

(** [analyzeInitialFrame(videoPath)] *)
Definition analyzeInitialFrame (ext : initial_probe) : result AnalysisResult :=
  dur <- ffprobe_duration ext ;;
  _ <- screenshot ext ;;
  content <- initial_reply ext ;;
  rethrow failed_analysis
    (parsed <- parse_reply content ;; checkInitial dur parsed).

(** Lines 593-605, the body of the [try] after [JSON.parse]. *)
Definition checkImportance (analysis : json) : result ImportanceAssessment :=
  i <- get analysis "importance" ;;
  r <- get analysis "reason" ;;
  f <- get analysis "fullDescription" ;;
  if (negb (truthy i) || negb (truthy r) || negb (truthy f)
      || negb (is_type TNumber i))%bool
  then Throw "Invalid importance analysis format from OpenAI"
  else
    match i, r, f with
    | Some (JNum n), Some rv, Some fv =>
        if (num_lt n (Fin 1) || num_gt n (Fin 9))%bool
        then Throw "Invalid importance analysis format from OpenAI"
        else Ok {| importance := n; reason := rv; fullDescription := fv |}
    | _, _, _ => Throw "Invalid importance analysis format from OpenAI"
    end.

(** [determineImportance(initialDescription, additionalDescriptions,
    transcript, duration)]: the four arguments only build the prompt, whose
    answer is [reply]. *)
Definition determineImportance (reply : result (option string))
  : result ImportanceAssessment :=
  content <- reply ;;
  rethrow failed_analysis
    (analysis <- parse_reply content ;; checkImportance analysis).

End WithBuiltins.

End Analyzer.

(** ** Paths (the functions of Node's [path] module the scripts call) *)

Module Path.
Import Text.

(** An absolute path: its components, the root first. *)
Abbreviation path := (list string).

(** [path.join(dir, name)] for a directory and an entry name. *)
Definition join (dir : path) (name : string) : path := dir ++ [name].

(** [path.dirname(p)] *)
Definition dirname (p : path) : path := removelast p.

(** [path.basename(p)] *)
Definition basename (p : path) : string := List.last p EmptyString.

(** [path.basename(p, ext)]: the suffix is removed only when something is
    left of the name. *)
Definition basenameWithout (p : path) (ext : string) : string :=
  let name := basename p in
  if (endsWith name ext && negb (String.eqb name ext))%bool
  then replaceTrailing ext EmptyString name
  else name.

(** The part of [s] from its last dot on, if it has a dot. *)
Fixpoint fromLastDot (s : string) : option string :=
  match s with
  | EmptyString => None
  | String c s' =>
      match fromLastDot s' with
      | Some e => Some e
      | None => if Ascii.eqb c "."%char then Some s else None
      end
  end.

(** [path.extname(p)]: empty when the name has no dot, when its only dot
    leads it, and for [..]. *)
Definition extname (p : path) : string :=
  match basename p with
  | EmptyString => EmptyString
  | String c rest =>
      if String.eqb (String c rest) ".." then EmptyString
      else match fromLastDot rest with
           | Some e => e
           | None => EmptyString
           end
  end.

(** [p.replace(/\.mov$/, ".mp4")] on the path written out with slashes: a
    match has no slash in it, so it lies in the last component. *)
Definition replaceMovSuffix (p : path) : path :=
  match p with
  | [] => []
  | _ => removelast p ++ [replaceTrailing ".mov" ".mp4" (List.last p EmptyString)]
  end.

(** The path as the scripts hold it, a string with slashes. *)
Fixpoint render (p : path) : string :=
  match p with
  | [] => EmptyString
  | c :: p' => "/" +:+ c +:+ render p'
  end.

End Path.

(** ** Pipeline orchestrator and metadata store (convert, lines 39-85,
       274-393 and 613-701) *)

Module Orchestrator.
Import Text Js Analyzer Path.

(** The object built at lines 669-681. *)
Record summary : Type := {
  filename : string;
  original_name : string;
  rating : number;                        (* importance.rating *)
  rating_reason : json;                   (* importance.reason *)
  duration_seconds : number;
  summary_description : json;
  additional_descriptions : list string;
  transcript : option string;             (* [None] is [null] *)
  processed_at : string
}.

(** One element of the JSON array, [{ ...summary, path }], and equally what
    one block of the text log is rendered from. *)
Record stored : Type := {
  record : summary;
  resolved_path : path
}.

(** The content of [summaries_and_transcripts.json] as line 356-362 read
    it. *)
Inductive json_file : Type :=
| Absent                       (* pathExists is false *)
| Blank                        (* content.trim() is empty *)
| Records (l : list stored)    (* an array, or the legacy comma-ended list *)
| NotArray                     (* parses to something without push *)
| Corrupt.                     (* JSON.parse throws *)

(** The directory being processed: its files with their Finder comments,
    and the two stores of [targetDir]. The scratch folder [frames] and
    [temp_audio.mp3] of the working directory are not tracked. *)
Record world : Type := {
  files : gmap path string;
  summary_txt : list stored;
  summary_json : json_file
}.

(** Everything one call of [processVideo] obtains from outside. *)
Record externals : Type := {
  finder_get_ok : bool;                 (* the osascript of hasMetadata runs *)
  probe : initial_probe;
  transcription : result string;        (* transcribeAudio *)
  keyframes : result unit;              (* extractKeyframes *)
  frame_description : nat -> result string;   (* describeFrame(framePaths[i]) *)
  importance_reply : result (option string);
  name_reply : result (option string);
  guid : string;                        (* generateShortGuid *)
  now : string;                         (* new Date().toISOString() *)
  append_ok : bool;                     (* fs.appendFile of the text log *)
  write_ok : bool;                      (* fs.writeFile of the JSON store *)
  rename_ok : bool;                     (* fs.rename, the source existing *)
  finder_set_ok : bool                  (* the osascript that sets the comment *)
}.

Inductive outcome : Type :=
| Skipped
| Processed (newFileName : string).

(** [hasMetadata(filePath)]: osascript prints the comment and a newline;
    any failure is caught and reads as no comment. *)
Definition hasMetadata (ext : externals) (w : world) (filePath : path) : bool :=
  if finder_get_ok ext then
    match files w !! filePath with
    | Some comment =>
        let result := trim (comment +:+ String "010" EmptyString) in
        negb (Nat.eqb (String.length result) 0)
    | None => false
    end
  else false.

(** Lines 282-286 of [setMacMetadataXattr]. *)
Fixpoint collapseSpaces (s : string) : string :=
  match s with
  | EmptyString => EmptyString
  | String c s' =>
      if is_space c then
        match s' with
        | String d _ =>
            if is_space d then collapseSpaces s'
            else String " "%char (collapseSpaces s')
        | EmptyString => String " "%char EmptyString
        end
      else String c (collapseSpaces s')
  end.

Definition cleanSummary (text : string) : string :=
  let quotes c :=
    if (Ascii.eqb c "\"%char || (code c =? 34)%N || Ascii.eqb c "'"%char)%bool
    then "'"%char else c in
  let breaks c :=
    if (between 9 10 c || (code c =? 13)%N)%bool then " "%char else c in
  trim (collapseSpaces (map_chars breaks (map_chars quotes text))).

(** [setMacMetadataXattr(filePath, summary)]: never throws. *)
Definition setMacMetadataXattr (ext : externals) (filePath : path)
    (text : string) (w : world) : world :=
  if finder_set_ok ext then
    match files w !! filePath with
    | Some _ =>
        {| files := <[filePath := cleanSummary text]> (files w);
           summary_txt := summary_txt w;
           summary_json := summary_json w |}
    | None => w
    end
  else w.

(** [writeSummaryFile(summary, newPath, targetDir)]: the text block first,
    then the JSON array read, extended and rewritten. *)
Definition writeSummaryFile (ext : externals) (s : summary) (newPath : path)
    (w : world) : result unit * world :=
  let entry := {| record := s; resolved_path := newPath |} in
  if negb (append_ok ext) then (Throw "appendFile failed", w)
  else
    let w1 := {| files := files w;
                 summary_txt := summary_txt w ++ [entry];
                 summary_json := summary_json w |} in
    match
      match summary_json w with
      | Absent | Blank | Corrupt => Some []
      | Records l => Some l
      | NotArray => None
      end
    with
    | None => (Throw "TypeError: jsonContent.push is not a function", w1)
    | Some jsonContent =>
        if negb (write_ok ext) then (Throw "writeFile failed", w1)
        else (Ok tt,
              {| files := files w;
                 summary_txt := summary_txt w ++ [entry];
                 summary_json := Records (jsonContent ++ [entry]) |})
    end.

(** [fs.rename(videoPath, newPath)] *)
Definition rename (ext : externals) (videoPath newPath : path) (w : world)
  : result unit * world :=
  match files w !! videoPath with
  | Some comment =>
      if rename_ok ext then
        (Ok tt,
         {| files := <[newPath := comment]> (delete videoPath (files w));
            summary_txt := summary_txt w;
            summary_json := summary_json w |})
      else (Throw "rename failed", w)
  | None => (Throw "ENOENT: no such file or directory, rename", w)
  end.

(** The loop of lines 644-651 over [framePaths[1..]]. *)
Fixpoint describeFrames (describe : nat -> result string) (i count : nat)
  : result (list string) :=
  match count with
  | O => Ok []
  | S count' =>
      desc <- describe i ;;
      rest <- describeFrames describe (S i) count' ;;
      Ok (desc :: rest)
  end.

(** How many frames [extractKeyframes(videoPath, numFrames)] extracts: one
    for each integer [i] from 0 with [i < numFrames]. *)
Definition frameCount (numFrames : Q) : nat := Z.to_nat (Qceiling numFrames).

(** The same outcomes, except for [fs.rename] or for the osascript that
    sets the comment. *)
Definition withRename (b : bool) (ext : externals) : externals :=
  {| finder_get_ok := finder_get_ok ext; probe := probe ext;
     transcription := transcription ext; keyframes := keyframes ext;
     frame_description := frame_description ext;
     importance_reply := importance_reply ext; name_reply := name_reply ext;
     guid := guid ext; now := now ext; append_ok := append_ok ext;
     write_ok := write_ok ext; rename_ok := b;
     finder_set_ok := finder_set_ok ext |}.

Definition withFinderSet (b : bool) (ext : externals) : externals :=
  {| finder_get_ok := finder_get_ok ext; probe := probe ext;
     transcription := transcription ext; keyframes := keyframes ext;
     frame_description := frame_description ext;
     importance_reply := importance_reply ext; name_reply := name_reply ext;
     guid := guid ext; now := now ext; append_ok := append_ok ext;
     write_ok := write_ok ext; rename_ok := rename_ok ext;
     finder_set_ok := b |}.

(** The array [writeSummaryFile] starts from. *)
Definition priorRecords (f : json_file) : list stored :=
  match f with
  | Records l => l
  | Absent | Blank | Corrupt | NotArray => []
  end.

(** The world a successful commit step leaves, [old] being the comment of
    the file before. *)
Definition committed (ext : externals) (videoPath : path)
    (newFileName : string) (s : summary) (comment old : string) (w : world)
  : world :=
  let newPath := join (dirname videoPath) newFileName in
  let entry := {| record := s; resolved_path := newPath |} in
  {| files :=
       if finder_set_ok ext
       then <[newPath := cleanSummary comment]>
              (<[newPath := old]> (delete videoPath (files w)))
       else <[newPath := old]> (delete videoPath (files w));
     summary_txt := summary_txt w ++ [entry];
     summary_json := Records (priorRecords (summary_json w) ++ [entry]) |}.

Section WithBuiltins.

Variable JSON_parse : string -> option json.

(** ToString, as a template literal applies it. *)
Variable ToString : json -> string.

(** [generateShortName(description, importance)] *)
Definition generateShortName (ext : externals) (imp : number) : result string :=
  reply <- name_reply ext ;;
  match reply with
  | None => Throw "TypeError: Cannot read properties of undefined"
  | Some content =>
      let shortName := sanitize content in
      Ok (ToString (JNum imp) +:+ "_" +:+ shortName +:+ "-" +:+ guid ext)
  end.

(** Lines 638-652: the descriptions after the first. *)
Definition additionalDescriptions (ext : externals) (a : AnalysisResult)
  : result (list string) :=
  if num_gt (additionalKeyframes a) (Fin 0) then
    _ <- keyframes ext ;;
    match additionalKeyframes a with
    | Fin q => describeFrames (frame_description ext) 1 (frameCount (q + 1) - 1)
    | _ => Ok []
    end
  else Ok [].

(** Lines 626-681: everything up to the summary object; nothing is written
    yet. Returns the new file name, the summary and the comment text. *)
Definition analyse (ext : externals) (videoPath : path)
  : result (string * summary * string) :=
  a <- analyzeInitialFrame JSON_parse (probe ext) ;;
  transcript <- (if needsTranscript a then transcription ext else Ok EmptyString) ;;
  more <- additionalDescriptions ext a ;;
  imp <- determineImportance JSON_parse (importance_reply ext) ;;
  short <- generateShortName ext (importance imp) ;;
  let newFileName := short +:+ extname videoPath in
  Ok (newFileName,
      {| filename := newFileName;
         original_name := basename videoPath;
         rating := importance imp;
         rating_reason := reason imp;
         duration_seconds := duration a;
         summary_description := fullDescription imp;
         additional_descriptions := more;
         transcript := if String.eqb transcript EmptyString then None else Some transcript;
         processed_at := now ext |},
      ToString (fullDescription imp) +:+ String "010" (String "010" EmptyString)
        +:+ "Importance: " +:+ ToString (JNum (importance imp)) +:+ "/9 - "
        +:+ ToString (reason imp)).

(** Lines 683-696: the commit step. *)
Definition commit (ext : externals) (videoPath : path) (newFileName : string)
    (s : summary) (comment : string) (w : world) : result outcome * world :=
  let newPath := join (dirname videoPath) newFileName in
  match writeSummaryFile ext s newPath w with
  | (Throw e, w1) => (Throw e, w1)
  | (Ok _, w1) =>
      match rename ext videoPath newPath w1 with
      | (Throw e, w2) => (Throw e, w2)
      | (Ok _, w2) =>
          (Ok (Processed newFileName),
           setMacMetadataXattr ext newPath comment w2)
      end
  end.

(** [processVideo(videoPath, force, targetDir)], the stores of [targetDir]
    being those of the world. *)
Definition processVideo (ext : externals) (videoPath : path) (force : bool)
    (w : world) : result outcome * world :=
  if (negb force && hasMetadata ext w videoPath)%bool then (Ok Skipped, w)
  else
    match analyse ext videoPath with
    | Throw e => (Throw e, w)
    | Ok (newFileName, s, comment) => commit ext videoPath newFileName s comment w
    end.

End WithBuiltins.

End Orchestrator.

(** ** Compression stage and its batch driver (compress, second listing,
       lines 213-214, 281-473 and 475-584 of the source file) *)

Module Compressor.
Import Text Js Path.

Definition MAX_RETRIES : nat := 3.
Definition RETRY_DELAY : nat := 5000.

(** *** The file system *)

Inductive node : Type :=
| File (data : string)
| Dir.

Abbreviation fsys := (gmap path node).

(** [q] is [p] or lies below it. *)
Definition inside (p q : path) : Prop := p `prefix_of` q.

Definition below (p q : path) : Prop := p `prefix_of` q /\ q <> p.

(** [fs.remove(p)]: the entry and everything below it; no error when the
    entry is missing. *)
Definition fs_remove (p : path) (fs : fsys) : fsys :=
  filter (fun kv => ~ inside p kv.1) fs.

(** [fs.ensureDir(d)] for a directory whose parent exists. *)
Definition fs_ensureDir (d : path) (fs : fsys) : result fsys :=
  match fs !! d with
  | Some Dir => Ok fs
  | Some (File _) => Throw "EEXIST: file already exists, mkdir"
  | None => Ok (<[d := Dir]> fs)
  end.

(** [fs.emptyDir(d)] of a directory that exists. *)
Definition fs_emptyDir (d : path) (fs : fsys) : fsys :=
  filter (fun kv => ~ below d kv.1) fs.

Definition rekey (src dst : path) (kv : path * node) : path * node :=
  ((dst ++ drop (length src) kv.1)%list, kv.2).

(** [fs.move(src, dst)] without [overwrite]. *)
Definition fs_move (src dst : path) (fs : fsys) : result fsys :=
  match fs !! dst with
  | Some _ => Throw "dest already exists."
  | None =>
      match fs !! src with
      | None => Throw "ENOENT: no such file or directory, lstat"
      | Some _ =>
          let carried :=
            rekey src dst <$> map_to_list (filter (fun kv => inside src kv.1) fs) in
          Ok (list_to_map carried ∪ fs_remove src fs)
      end
  end.

(** [fs.rmdir(d)]: only an empty directory. *)
Definition fs_rmdir (d : path) (fs : fsys) : result fsys :=
  match fs !! d with
  | Some Dir =>
      if bool_decide (map_Forall (fun k _ => ~ below d k) fs)
      then Ok (delete d fs)
      else Throw "ENOTEMPTY: directory not empty, rmdir"
  | Some (File _) => Throw "ENOTDIR: not a directory, rmdir"
  | None => Throw "ENOENT: no such file or directory, rmdir"
  end.


(** *** compressVideo *)

(** What ffmpeg does with a readable input. *)
Inductive encoding : Type :=
| Encoded (data : string)
| Broken (message : string) (partial : option string).

(** Everything one invocation of [compressVideo] obtains from outside. *)
Record attempt : Type := {
  drive_accessible : bool;           (* isDriveAccessible(inputPath) *)
  access_error : option string;      (* fs.access(inputPath, R_OK) *)
  ffprobe_error : option string;     (* ffmpeg.ffprobe(inputPath) *)
  stat_error : option string;        (* statSync and the original-size log *)
  ffmpeg : encoding;
  enoent : string                    (* ffmpeg's message when the input is gone *)
}.

Inductive event : Type :=
| Started                            (* the forced log line of line 300 *)
| Waited (ms : nat).                 (* await delay(ms) *)

(** Line 307 *)
Definition looksRemovable (inputPath : path) : bool :=
  (includes (render inputPath) ":"
   || startsWith (render inputPath) "/Volumes/")%bool.

(** Lines 420-424 and 454-457 *)
Definition isDriveIssue (message : string) : bool :=
  (includes message "ECANCELED"
   || includes message "read"
   || includes message "I/O"
   || includes message "operation canceled")%bool.

(** The three [catch] blocks that may call [compressVideo] again. *)
Inductive site : Type :=
| AtAccess     (* lines 322-340 *)
| AtProbe      (* lines 352-368 *)
| AtEncode.    (* lines 448-468 *)

Inductive attempted : Type :=
| Completed (fs' : fsys)
| Fatal (message : string) (fs' : fsys)
| Caught (s : site) (message : string) (fs' : fsys).

(** [temp_processing], relative to the working directory. *)
Definition scratch (cwd : path) : path := join cwd "temp_processing".

(** The promise of lines 391-433 together with the [statSync] of line 436:
    ffmpeg reads [inputPath] and, with [-y], writes [outputPath]. *)
Definition encode (a : attempt) (inputPath outputPath : path) (fs : fsys)
  : result unit * fsys :=
  match fs !! inputPath with
  | Some (File _) =>
      match ffmpeg a with
      | Encoded data => (Ok tt, <[outputPath := File data]> fs)
      | Broken m (Some data) => (Throw m, <[outputPath := File data]> fs)
      | Broken m None => (Throw m, fs)
      end
  | _ => (Throw (enoent a), fs)
  end.

(** One invocation of [compressVideo] up to the point where it returns,
    throws, or is about to wait and call itself. The [finally] of line 469
    is part of every way out of the [try] of line 388. *)
Definition oneAttempt (a : attempt) (cwd inputPath outputPath : path)
    (fs : fsys) : attempted :=
  if (looksRemovable inputPath && negb (drive_accessible a))%bool
  then Fatal ("Drive not accessible for " +:+ render inputPath) fs
  else
    match (match fs !! inputPath with
           | None => Some "ENOENT: no such file or directory, access"
           | Some _ => access_error a
           end) with
    | Some m => Caught AtAccess m fs
    | None =>
        match ffprobe_error a with
        | Some m => Caught AtProbe m fs
        | None =>
            match stat_error a with
            | Some m => Fatal m fs
            | None =>
                match fs_ensureDir (scratch cwd) fs with
                | Throw m => Fatal m fs
                | Ok fs1 =>
                    let fs2 := fs_emptyDir (scratch cwd) fs1 in
                    match encode a inputPath outputPath fs2 with
                    | (Ok _, fs3) => Completed (fs_remove (scratch cwd) fs3)
                    | (Throw m, fs3) =>
                        Caught AtEncode m (fs_remove (scratch cwd) fs3)
                    end
                end
            end
        end
    end.

(** The file system an invocation leaves. *)
Definition after (x : attempted) : fsys :=
  match x with
  | Completed fs' | Fatal _ fs' | Caught _ _ fs' => fs'
  end.

(** Whether the [catch] block at [s] asks for another invocation, given
    that [retryCount < MAX_RETRIES]. *)
Definition worthRetrying (s : site) (message : string) : bool :=
  match s with
  | AtAccess | AtProbe => true
  | AtEncode => isDriveIssue message
  end.

(** What the [catch] block at [s] throws when it gives up. *)
Definition givenUp (s : site) (message : string) : string :=
  match s with
  | AtAccess =>
      "Failed to access input file after 3 attempts: " +:+ message
  | AtProbe =>
      "Failed to get video metadata after 3 attempts: " +:+ message
  | AtEncode => message
  end.

Definition run : Type := result unit * fsys * list event.

(** [compressVideo(inputPath, outputPath, retryCount)], invocation
    [retryCount] reading [ext retryCount]. The removal of line 471 is issued
    when the nested call reaches its first [await]; it is sequenced before
    the file-system operations of that call. *)
Equations? compressVideo (ext : nat -> attempt) (cwd inputPath outputPath : path)
    (retryCount : nat) (fs : fsys) : run
  by wf (MAX_RETRIES - retryCount) lt :=
compressVideo ext cwd inputPath outputPath retryCount fs
  with oneAttempt (ext retryCount) cwd inputPath outputPath fs => {
  | Completed fs' => (Ok tt, fs', [Started]);
  | Fatal m fs' => (Throw m, fs', [Started]);
  | Caught s m fs' with lt_dec retryCount MAX_RETRIES => {
    | left _ with worthRetrying s m => {
      | true =>
          let '(r, fs'', t) :=
            compressVideo ext cwd inputPath outputPath (S retryCount) fs' in
          (r, fs'', Started :: Waited RETRY_DELAY :: t);
      | false => (Throw m, fs', [Started]) };
    | right _ => (Throw (givenUp s m), fs', [Started]) } }.
Proof. unfold MAX_RETRIES in *; lia. Qed.

(** The invocations and the waits in a trace. *)
Definition attemptsMade (t : list event) : nat :=
  length (List.filter
            (fun e => match e with Started => true | Waited _ => false end) t).




(** *** processDirectory *)

(** What a batch obtains from outside: the outcomes of the invocations of
    [compressVideo] on each file, and the sizes [statSync] reports to the
    sort. *)
Record batch : Type := {
  attempts : path -> nat -> attempt;
  stat_size : path -> nat
}.

Inductive handled : Type :=
| Squished                        (* compressed, and replaced when clobbering *)
| AlreadyCompressed               (* the skip of line 556 *)
| FailedFile (message : string).  (* the catch of line 579 *)

(** The filter of line 493. *)
Definition selected (name : string) : bool :=
  endsWith (toLowerCase name) ".mov".

(** Lines 546 and 551: the name of the output. *)
Definition outputName (file : path) : string :=
  basenameWithout file ".mov" +:+ ".mp4".

(** The staging directory of line 542 and the staged file of line 546,
    for the entry [name] of [dir]. *)
Definition tempOutput (dir : path) : path := join dir "temp_output".


(** Lines 564-578, after [compressVideo] has returned. *)
Definition replaceOriginal (file outputPath : path) (fs : fsys)
  : result unit * fsys :=
  let fs1 := fs_remove file fs in
  let finalPath := replaceMovSuffix file in
  match fs_move outputPath finalPath fs1 with
  | Throw m => (Throw m, fs1)
  | Ok fs2 =>
      match fs_rmdir (dirname outputPath) fs2 with
      | Ok fs3 => (Ok tt, fs3)
      | Throw _ => (Ok tt, fs2)
      end
  end.

(** Lines 538-582: the body of the loop for one file. A [Throw] leaves the
    loop (only [ensureDir] is outside the [try]). *)
Definition processFile (ext : batch) (cwd dir compressedDir : path)
    (force clobber : bool) (file : path) (fs : fsys)
  : result handled * fsys * list event :=
  match
    (if clobber then
       let tempDir := join dir "temp_output" in
       fs0 <- fs_ensureDir tempDir fs ;;
       Ok (join tempDir (outputName file), fs0)
     else Ok (join compressedDir (outputName file), fs))
  with
  | Throw m => (Throw m, fs, [])
  | Ok (outputPath, fs0) =>
      if (negb clobber && negb force
          && bool_decide (is_Some (fs0 !! outputPath)))%bool
      then (Ok AlreadyCompressed, fs0, [])
      else
        match compressVideo (attempts ext file) cwd file outputPath 0 fs0 with
        | (Throw m, fs1, t) => (Ok (FailedFile m), fs1, t)
        | (Ok _, fs1, t) =>
            if clobber then
              match replaceOriginal file outputPath fs1 with
              | (Throw m, fs2) => (Ok (FailedFile m), fs2, t)
              | (Ok _, fs2) => (Ok Squished, fs2, t)
              end
            else (Ok Squished, fs1, t)
        end
  end.

(** The loop of line 531. *)
Fixpoint processFiles (ext : batch) (cwd dir compressedDir : path)
    (force clobber : bool) (filesToProcess : list path) (fs : fsys)
  : result (list handled) * fsys * list event :=
  match filesToProcess with
  | [] => (Ok [], fs, [])
  | file :: rest =>
      match processFile ext cwd dir compressedDir force clobber file fs with
      | (Throw m, fs1, t) => (Throw m, fs1, t)
      | (Ok h, fs1, t) =>
          match processFiles ext cwd dir compressedDir force clobber rest fs1 with
          | (Throw m, fs2, t') => (Throw m, fs2, (t ++ t')%list)
          | (Ok hs, fs2, t') => (Ok (h :: hs), fs2, (t ++ t')%list)
          end
      end
  end.

(** [fs.readdir(dir)]: the names of the entries directly in [dir]. *)
Definition readdir (dir : path) (fs : fsys) : list string :=
  basename <$>
    filter (fun k => dirname k = dir /\ k <> []) (map_to_list fs).*1.

(** The comparator of line 511: ascending by size. *)
Definition bySize (ext : batch) (a b : path) : Prop :=
  (stat_size ext a <= stat_size ext b)%nat.

#[global] Instance bySize_dec (ext : batch) : RelDecision (bySize ext).
Proof. intros a b. unfold bySize. apply _. Defined.

(** [files.slice(0, limit)] *)
Definition slice0 {A : Type} (limit : Z) (l : list A) : list A :=
  if (limit <? 0)%Z then take (Z.to_nat (Z.of_nat (length l) + limit)) l
  else take (Z.to_nat limit) l.

(** Lines 492-494: the files of the batch. *)
Definition candidates (dir : path) (fs : fsys) : list path :=
  join dir <$> filter (fun f => selected f = true) (readdir dir fs).

(** Lines 511 and 528: smallest first, then [limit ? files.slice(0, limit)
    : files]; [limit] is [None] for [null] and for the NaN of a malformed
    [--limit]. *)
Definition filesToProcess (ext : batch) (limit : option Z) (files : list path)
  : list path :=
  let sorted := merge_sort (bySize ext) files in
  match limit with
  | Some Z0 | None => sorted
  | Some n => slice0 n sorted
  end.

(** [processDirectory(dir, force, limit, clobber)]. A [Throw] ends the
    process with exit code 1. *)
Definition processDirectory (ext : batch) (cwd dir : path) (force : bool)
    (limit : option Z) (clobber : bool) (fs : fsys)
  : result (list handled) * fsys * list event :=
  match fs !! dir with
  | None => (Throw "Directory does not exist", fs, [])
  | Some (File _) => (Throw "ENOTDIR: not a directory, scandir", fs, [])
  | Some Dir =>
      let files := candidates dir fs in
      if Nat.eqb (length files) 0
      then (Throw "No MOV files found to process", fs, [])
      else
        match
          (if clobber then Ok (dir, fs)
           else let compressedDir := join dir "compressed" in
                fs0 <- fs_ensureDir compressedDir fs ;;
                Ok (compressedDir, fs0))
        with
        | Throw m => (Throw m, fs, [])
        | Ok (compressedDir, fs0) =>
            processFiles ext cwd dir compressedDir force clobber
              (filesToProcess ext limit files) fs0
        end
  end.

End Compressor.

(** ** Notions in which further properties are stated *)

Module Notions.
Import Text.

(** A reply in a Markdown fence: [```json], newline, body, newline, [```]. *)
Definition fence (body : string) : string :=
  ("```json" +:+ String "010" EmptyString) +:+ body
  +:+ String "010" "```".

(** A character that can stand in an AppleScript string literal: not a
    double quote, a backslash, a line feed, a carriage return or a tab. *)
Definition scriptSafe (c : ascii) : bool :=
  negb ((code c =? 34)%N || (code c =? 92)%N || (code c =? 10)%N
        || (code c =? 13)%N || (code c =? 9)%N).

(** A string with something in it besides white space. *)
Fixpoint inked (s : string) : bool :=
  match s with
  | EmptyString => false
  | String c s' => (negb (is_space c) || inked s')%bool
  end.

(** The same outcomes, except for [transcribeAudio]. *)
Definition withTranscription (t : Js.result string)
    (ext : Orchestrator.externals) : Orchestrator.externals :=
  {| Orchestrator.finder_get_ok := Orchestrator.finder_get_ok ext;
     Orchestrator.probe := Orchestrator.probe ext;
     Orchestrator.transcription := t;
     Orchestrator.keyframes := Orchestrator.keyframes ext;
     Orchestrator.frame_description := Orchestrator.frame_description ext;
     Orchestrator.importance_reply := Orchestrator.importance_reply ext;
     Orchestrator.name_reply := Orchestrator.name_reply ext;
     Orchestrator.guid := Orchestrator.guid ext;
     Orchestrator.now := Orchestrator.now ext;
     Orchestrator.append_ok := Orchestrator.append_ok ext;
     Orchestrator.write_ok := Orchestrator.write_ok ext;
     Orchestrator.rename_ok := Orchestrator.rename_ok ext;
     Orchestrator.finder_set_ok := Orchestrator.finder_set_ok ext |}.

(** The names the processed files of a batch were given. *)
Definition newNames (os : list Orchestrator.outcome) : list string :=
  omap (fun o => match o with
                 | Orchestrator.Processed n => Some n
                 | Orchestrator.Skipped => None
                 end) os.

End Notions.

(** ** Batch driver of the analysis (convert, lines 703-758) *)

Module Driver.
Import Text Js Analyzer Path Orchestrator.

(** What a run of [processDirectory] obtains from outside: whether the
    directory can be listed, the outcomes of the calls made for each file,
    the sizes [statSync] reports to the sort, and the local time written by
    [--comment-only]. *)
Record batch : Type := {
  listable : bool;
  service : path -> externals;
  stat_size : path -> nat;
  locale_now : path -> string
}.

(** Line 736 and the filter of line 740. *)
Definition fileExtension (mp4 : bool) : string :=
  if mp4 then ".mp4" else ".mov".

Definition wanted (mp4 : bool) (name : string) : bool :=
  endsWith (toLowerCase name) (fileExtension mp4).

(** [fs.readdir(dir)] on the files of the world. *)
Definition readdir (dir : path) (w : world) : list string :=
  basename <$>
    filter (fun k => dirname k = dir /\ k <> []) (map_to_list (files w)).*1.

(** Lines 739-741 *)
Definition listing (dir : path) (mp4 : bool) (w : world) : list path :=
  join dir <$> filter (fun f => wanted mp4 f = true) (readdir dir w).

(** [setTimestampComment(filePath)]: a failure of osascript is caught and
    logged. *)
Definition setTimestampComment (ext : batch) (filePath : path) (w : world)
  : world :=
  let comment := "File processed at: " +:+ locale_now ext filePath in
  if finder_set_ok (service ext filePath) then
    match files w !! filePath with
    | Some _ =>
        {| files := <[filePath := comment]> (files w);
           summary_txt := summary_txt w;
           summary_json := summary_json w |}
    | None => w
    end
  else w.

(** The state [setTimestampComment] leaves a file in. *)
Definition stamped (ext : batch) (w : world) (file : path) : Prop :=
  files w !! file = Some ("File processed at: " +:+ locale_now ext file).

(** The comparator of line 753: ascending by size. *)
Definition bySize (ext : batch) (a b : path) : Prop :=
  (stat_size ext a <= stat_size ext b)%nat.

#[global] Instance bySize_dec (ext : batch) : RelDecision (bySize ext).
Proof. intros a b. unfold bySize. apply _. Defined.

Section WithBuiltins.

Variable JSON_parse : string -> option json.
Variable ToString : json -> string.

(** The loop of lines 754-757: nothing catches what [processVideo] throws. *)
Fixpoint processEach (ext : batch) (force : bool) (todo : list path)
    (w : world) : result (list outcome) * world :=
  match todo with
  | [] => (Ok [], w)
  | file :: rest =>
      match processVideo JSON_parse ToString (service ext file) file force w with
      | (Throw e, w1) => (Throw e, w1)
      | (Ok o, w1) =>
          match processEach ext force rest w1 with
          | (Throw e, w2) => (Throw e, w2)
          | (Ok os, w2) => (Ok (o :: os), w2)
          end
      end
  end.

(** [processDirectory(dir, force, commentOnly, mp4)]; the result lists what
    became of each file, and is empty for [--comment-only]. *)
Definition processDirectory (ext : batch) (dir : path)
    (force commentOnly mp4 : bool) (w : world) : result (list outcome) * world :=
  if negb (listable ext) then (Throw "ENOENT: no such file or directory, scandir", w)
  else
    let files := listing dir mp4 w in
    if commentOnly
    then (Ok [], foldl (fun w' file => setTimestampComment ext file w') w files)
    else processEach ext force (merge_sort (bySize ext) files) w.

End WithBuiltins.

End Driver.

(** ** Sample inputs

    Replies, worlds and file systems on which the properties below are
    exercised. *)

Module Samples.
Import Text Js Analyzer Path.

(** A stand-in for [JSON.parse] that knows finitely many texts. *)
Fixpoint tableParse (table : list (string * json)) (text : string)
  : option json :=
  match table with
  | [] => None
  | (t, v) :: rest => if String.eqb text t then Some v else tableParse rest text
  end.

Definition dq : string := String (Ascii.ascii_of_N 34) EmptyString.

Definition quoted (s : string) : string := dq +:+ s +:+ dq.

Definition member (k v : string) : string := quoted k +:+ ": " +:+ v.

(** The reply to the initial-frame prompt: a scene that, by the prompt's own
    rules, needs no transcript. *)
Definition initialText : string :=
  "{" +:+ member "description" (quoted "a beach at dusk") +:+ ", "
      +:+ member "needsTranscript" "false" +:+ ", "
      +:+ member "additionalKeyframes" "0" +:+ "}".

Definition initialValue : json :=
  JObj [("description", JStr "a beach at dusk");
        ("needsTranscript", JBool false);
        ("additionalKeyframes", JNum (Fin 0))].

(** Replies to the importance prompt: 3.5, 5 and 12. *)
Definition importanceText (n : string) : string :=
  "{" +:+ member "importance" n +:+ ", "
      +:+ member "reason" (quoted "scenery") +:+ ", "
      +:+ member "fullDescription" (quoted "waves on a beach") +:+ "}".

Definition importanceValue (n : number) : json :=
  JObj [("importance", JNum n);
        ("reason", JStr "scenery");
        ("fullDescription", JStr "waves on a beach")].

Definition parse : string -> option json :=
  tableParse [(initialText, initialValue);
              (importanceText "3.5", importanceValue (Fin (7 # 2)));
              (importanceText "5", importanceValue (Fin 5));
              (importanceText "12", importanceValue (Fin 12))].

(** A clip of ten seconds whose frame got the reply [initialText]. *)
Definition tenSeconds : initial_probe :=
  {| ffprobe_duration := Ok (Fin 10);
     screenshot := Ok tt;
     initial_reply := Ok (Some initialText) |}.

(** ToString on the values the samples display. *)
Definition show (v : json) : string :=
  match v with
  | JStr s => s
  | JNum (Fin q) => if Qeq_bool q 5 then "5" else "3.5"
  | JNum _ => "NaN"
  | JBool true => "true"
  | JBool false => "false"
  | JNull => "null"
  | JArr _ _ => "[array]"
  | JObj _ => "[object Object]"
  end.

Definition clip : path := ["videos"; "IMG_0042.mov"].

(** One clip, never annotated; no store yet. *)
Definition freshWorld : Orchestrator.world :=
  {| Orchestrator.files := {[ clip := EmptyString ]};
     Orchestrator.summary_txt := [];
     Orchestrator.summary_json := Orchestrator.Absent |}.

(** The same clip with a Finder comment of one space. *)
Definition blankWorld : Orchestrator.world :=
  {| Orchestrator.files := {[ clip := " " ]};
     Orchestrator.summary_txt := [];
     Orchestrator.summary_json := Orchestrator.Absent |}.

(** Every service answers; the transcription finds no speech. *)
Definition services : Orchestrator.externals :=
  {| Orchestrator.finder_get_ok := true;
     Orchestrator.probe := tenSeconds;
     Orchestrator.transcription := Ok EmptyString;
     Orchestrator.keyframes := Ok tt;
     Orchestrator.frame_description := fun _ => Ok "waves";
     Orchestrator.importance_reply := Ok (Some (importanceText "5"));
     Orchestrator.name_reply := Ok (Some "Beach Sunset Walk");
     Orchestrator.guid := "k3x9";
     Orchestrator.now := "2025-03-25T22:27:15.078Z";
     Orchestrator.append_ok := true;
     Orchestrator.write_ok := true;
     Orchestrator.rename_ok := true;
     Orchestrator.finder_set_ok := true |}.

(** The directory [/videos] with a clip of each spelling, the working
    directory being [/work]. *)
Definition workdir : path := ["work"].

Definition videos : path := ["videos"].

Definition disk : Compressor.fsys :=
  <[ ["videos"; "A.MOV"] := Compressor.File "AAAAAAAAAAAA" ]>
    (<[ ["videos"; "a.mov"] := Compressor.File "aaaaaaaa" ]>
       (<[ ["videos"] := Compressor.Dir ]> ∅)).


Definition encodes (data : string) : Compressor.attempt :=
  {| Compressor.drive_accessible := true;
     Compressor.access_error := None;
     Compressor.ffprobe_error := None;
     Compressor.stat_error := None;
     Compressor.ffmpeg := Compressor.Encoded data;
     Compressor.enoent := "No such file or directory" |}.

Definition breaks (message : string) : Compressor.attempt :=
  {| Compressor.drive_accessible := true;
     Compressor.access_error := None;
     Compressor.ffprobe_error := None;
     Compressor.stat_error := None;
     Compressor.ffmpeg := Compressor.Broken message None;
     Compressor.enoent := "No such file or directory" |}.




(** A batch in which ffmpeg encodes every file at once, and one in which it
    knows no encoder. *)
Definition smooth : Compressor.batch :=
  {| Compressor.attempts := fun _ _ => encodes "mp4";
     Compressor.stat_size := fun _ => 0 |}.


End Samples.

(** ** Further sample inputs *)

Module Scenarios.
Import Text Js Analyzer Path.

(** A reply that asks for two more keyframes. *)
Definition busyText : string :=
  "{" +:+ Samples.member "description" (Samples.quoted "children on a swing")
      +:+ ", " +:+ Samples.member "needsTranscript" "true" +:+ ", "
      +:+ Samples.member "additionalKeyframes" "2" +:+ "}".

Definition busyValue : json :=
  JObj [("description", JStr "children on a swing");
        ("needsTranscript", JBool true);
        ("additionalKeyframes", JNum (Fin 2))].

Definition parse : string -> option json :=
  Samples.tableParse
    [(busyText, busyValue);
     (Samples.importanceText "5", Samples.importanceValue (Fin 5))].


(** A batch in which every service answers but no file can be renamed, the
    clock of [--comment-only] reading one time for every file. *)
Definition stuck : Driver.batch :=
  {| Driver.listable := true;
     Driver.service := fun _ =>
       {| Orchestrator.finder_get_ok := true;
          Orchestrator.probe := Samples.tenSeconds;
          Orchestrator.transcription := Ok EmptyString;
          Orchestrator.keyframes := Ok tt;
          Orchestrator.frame_description := fun _ => Ok "waves";
          Orchestrator.importance_reply :=
            Ok (Some (Samples.importanceText "5"));
          Orchestrator.name_reply := Ok (Some "Beach Sunset Walk");
          Orchestrator.guid := "k3x9";
          Orchestrator.now := "2025-03-25T22:27:15.078Z";
          Orchestrator.append_ok := true;
          Orchestrator.write_ok := true;
          Orchestrator.rename_ok := false;
          Orchestrator.finder_set_ok := true |};
     Driver.stat_size := fun _ => 0%nat;
     Driver.locale_now := fun _ => "3/25/2025, 10:27:15 PM" |}.

(** A batch in which every service answers and every file can be renamed. *)
Definition steady : Driver.batch :=
  {| Driver.listable := true;
     Driver.service := fun _ => Samples.services;
     Driver.stat_size := fun _ => 0%nat;
     Driver.locale_now := fun _ => "3/25/2025, 10:27:15 PM" |}.

End Scenarios.

(** * Properties *)

(** ** Slug sanitization *)

Section SlugFacts.
Import Text.

Lemma slug_char_not_space c : is_slug_char c = true -> is_space c = false.
Proof. destruct c as [[] [] [] [] [] [] [] []]; vm_compute; congruence. Qed.

Lemma slug_char_lower c : is_slug_char c = true -> lower_char c = c.
Proof. destruct c as [[] [] [] [] [] [] [] []]; vm_compute; congruence. Qed.

Lemma hyphen_is_slug_char : is_slug_char hyphen = true.
Proof. reflexivity. Qed.

Lemma eqb_hyphen c : Ascii.eqb c hyphen = true -> c = hyphen.
Proof. apply Ascii.eqb_eq. Qed.

Lemma every_map_chars P f s :
  (forall c, P (f c) = true) -> every P (map_chars f s) = true.
Proof.
  intros Hf. induction s as [|c s IH]; simpl; [reflexivity|].
  now rewrite Hf, IH.
Qed.

Lemma replaceUnsafe_slug s : every is_slug_char (replaceUnsafe s) = true.
Proof.
  apply every_map_chars. intros c.
  destruct (is_slug_char c) eqn:E; [exact E | reflexivity].
Qed.

Lemma collapse_cons c s :
  collapseHyphens (String c s) =
  if (Ascii.eqb c hyphen && leadingHyphen s)%bool
  then collapseHyphens s
  else String c (collapseHyphens s).
Proof.
  cbn [collapseHyphens]. destruct (Ascii.eqb c hyphen); [|reflexivity].
  destruct s as [|d s']; [reflexivity|].
  cbn [leadingHyphen andb]. destruct (Ascii.eqb d hyphen); reflexivity.
Qed.

Lemma collapse_every P s :
  every P s = true -> every P (collapseHyphens s) = true.
Proof.
  induction s as [|c s IH]; [reflexivity|].
  cbn [every]. intros H. apply andb_prop in H as [Hc Hs].
  rewrite collapse_cons. destruct (_ && _)%bool; [auto|].
  cbn [every]. now rewrite Hc, IH.
Qed.

Lemma collapse_leading s :
  leadingHyphen (collapseHyphens s) = leadingHyphen s.
Proof.
  induction s as [|c s IH]; [reflexivity|].
  rewrite collapse_cons. cbn [leadingHyphen].
  destruct (Ascii.eqb c hyphen) eqn:Ec; [|exact Ec].
  destruct (leadingHyphen s) eqn:El; cbn [andb leadingHyphen]; congruence.
Qed.

Lemma collapse_no_double s : doubleHyphen (collapseHyphens s) = false.
Proof.
  induction s as [|c s IH]; [reflexivity|].
  rewrite collapse_cons.
  destruct (Ascii.eqb c hyphen && leadingHyphen s)%bool eqn:E; [exact IH|].
  cbn [doubleHyphen]. now rewrite collapse_leading, E, IH.
Qed.

Lemma stripLeading_every P s :
  every P s = true -> every P (stripLeadingHyphen s) = true.
Proof.
  destruct s as [|c s]; [reflexivity|]. cbn [stripLeadingHyphen every].
  intros H. apply andb_prop in H as [Hc Hs].
  destruct (Ascii.eqb c hyphen); [exact Hs|]. cbn [every]. now rewrite Hc.
Qed.

Lemma stripTrailing_cons c s :
  stripTrailingHyphen (String c s) =
  match s with
  | EmptyString => if Ascii.eqb c hyphen then EmptyString else String c s
  | _ => String c (stripTrailingHyphen s)
  end.
Proof. destruct s; reflexivity. Qed.

Lemma trailing_cons c s :
  trailingHyphen (String c s) =
  match s with
  | EmptyString => Ascii.eqb c hyphen
  | _ => trailingHyphen s
  end.
Proof. destruct s; reflexivity. Qed.

Lemma stripTrailing_every P s :
  every P s = true -> every P (stripTrailingHyphen s) = true.
Proof.
  induction s as [|c s IH]; [reflexivity|].
  cbn [every]. intros H. apply andb_prop in H as [Hc Hs].
  rewrite stripTrailing_cons. destruct s as [|d s'].
  - destruct (Ascii.eqb c hyphen); [reflexivity|]. cbn [every]. now rewrite Hc.
  - cbn [every]. rewrite Hc. exact (IH Hs).
Qed.

Lemma stripLeading_no_double s :
  doubleHyphen s = false -> doubleHyphen (stripLeadingHyphen s) = false.
Proof.
  destruct s as [|c s]; [reflexivity|]. cbn [stripLeadingHyphen doubleHyphen].
  intros H. apply orb_false_elim in H as [H1 H2].
  destruct (Ascii.eqb c hyphen) eqn:Ec; [exact H2|].
  cbn [doubleHyphen]. now rewrite Ec, H2.
Qed.

Lemma stripLeading_leading s :
  doubleHyphen s = false -> leadingHyphen (stripLeadingHyphen s) = false.
Proof.
  destruct s as [|c s]; [reflexivity|]. cbn [stripLeadingHyphen doubleHyphen].
  intros H. apply orb_false_elim in H as [H1 H2].
  destruct (Ascii.eqb c hyphen) eqn:Ec; [exact H1|exact Ec].
Qed.

Lemma stripTrailing_leading s :
  doubleHyphen s = false -> leadingHyphen s = false ->
  leadingHyphen (stripTrailingHyphen s) = false.
Proof.
  destruct s as [|c s]; [reflexivity|]. intros _ H.
  rewrite stripTrailing_cons. cbn [leadingHyphen] in H.
  destruct s; [rewrite H; exact H | exact H].
Qed.

Lemma stripTrailing_no_double s :
  doubleHyphen s = false -> doubleHyphen (stripTrailingHyphen s) = false.
Proof.
  induction s as [|c s IH]; [reflexivity|].
  cbn [doubleHyphen]. intros H. apply orb_false_elim in H as [H1 H2].
  rewrite stripTrailing_cons. destruct s as [|d s'].
  - destruct (Ascii.eqb c hyphen) eqn:Ec; [reflexivity|].
    cbn. now rewrite Ec.
  - cbn [doubleHyphen]. rewrite (IH H2), orb_false_r.
    destruct (Ascii.eqb c hyphen); [|reflexivity]. cbn [andb] in *.
    cbn [leadingHyphen] in H1. rewrite stripTrailing_cons.
    destruct s'; [now rewrite H1 | exact H1].
Qed.

Lemma stripTrailing_trailing s :
  doubleHyphen s = false -> trailingHyphen (stripTrailingHyphen s) = false.
Proof.
  induction s as [|c s IH]; [reflexivity|].
  cbn [doubleHyphen]. intros H. apply orb_false_elim in H as [H1 H2].
  rewrite stripTrailing_cons. destruct s as [|d s'].
  - destruct (Ascii.eqb c hyphen) eqn:Ec; [reflexivity|]. cbn. exact Ec.
  - specialize (IH H2). rewrite trailing_cons.
    destruct (stripTrailingHyphen (String d s')) as [|e r] eqn:Es; [|exact IH].
    (* the rest was a single hyphen: then [c] is not one *)
    rewrite stripTrailing_cons in Es. destruct s'; [|discriminate].
    destruct (Ascii.eqb d hyphen) eqn:Ed; [|discriminate].
    cbn [leadingHyphen] in H1. rewrite Ed, andb_true_r in H1. exact H1.
Qed.

Lemma sanitize_isSlug s : isSlug (sanitize s) = true.
Proof.
  unfold sanitize, stripEdgeHyphens, isSlug.
  set (u := replaceUnsafe (toLowerCase (trim s))).
  pose proof (collapse_every is_slug_char u (replaceUnsafe_slug _)) as He.
  pose proof (collapse_no_double u) as Hd.
  set (v := collapseHyphens u) in *.
  rewrite (stripTrailing_every _ _ (stripLeading_every _ _ He)).
  rewrite (stripTrailing_no_double _ (stripLeading_no_double _ Hd)).
  rewrite (stripTrailing_leading _ (stripLeading_no_double _ Hd)
             (stripLeading_leading _ Hd)).
  rewrite (stripTrailing_trailing _ (stripLeading_no_double _ Hd)).
  reflexivity.
Qed.

Lemma every_slug_trimStart s :
  every is_slug_char s = true -> trimStart s = s.
Proof.
  destruct s as [|c s]; [reflexivity|]. cbn [every trimStart].
  intros H. apply andb_prop in H as [Hc _].
  now rewrite (slug_char_not_space _ Hc).
Qed.

Lemma every_slug_trimEnd s :
  every is_slug_char s = true -> trimEnd s = s.
Proof.
  induction s as [|c s IH]; [reflexivity|]. cbn [every trimEnd].
  intros H. apply andb_prop in H as [Hc Hs]. rewrite (IH Hs).
  rewrite (slug_char_not_space _ Hc). destruct s; reflexivity.
Qed.

Lemma every_slug_lower s :
  every is_slug_char s = true -> toLowerCase s = s.
Proof.
  unfold toLowerCase. induction s as [|c s IH]; [reflexivity|].
  cbn [every map_chars]. intros H. apply andb_prop in H as [Hc Hs].
  now rewrite (slug_char_lower _ Hc), (IH Hs).
Qed.

Lemma every_slug_replaceUnsafe s :
  every is_slug_char s = true -> replaceUnsafe s = s.
Proof.
  unfold replaceUnsafe. induction s as [|c s IH]; [reflexivity|].
  cbn [every map_chars]. intros H. apply andb_prop in H as [Hc Hs].
  now rewrite Hc, (IH Hs).
Qed.

Lemma no_double_collapse s :
  doubleHyphen s = false -> collapseHyphens s = s.
Proof.
  induction s as [|c s IH]; [reflexivity|].
  cbn [doubleHyphen]. intros H. apply orb_false_elim in H as [H1 H2].
  now rewrite collapse_cons, H1, (IH H2).
Qed.

Lemma no_trailing_strip s :
  trailingHyphen s = false -> stripTrailingHyphen s = s.
Proof.
  induction s as [|c s IH]; [reflexivity|].
  rewrite trailing_cons, stripTrailing_cons. destruct s as [|d s'].
  - now intros ->.
  - intros H. now rewrite (IH H).
Qed.

Lemma isSlug_fixed r : isSlug r = true -> sanitize r = r.
Proof.
  unfold isSlug. intros H.
  apply andb_prop in H as [H Ht]. apply andb_prop in H as [H Hl].
  apply andb_prop in H as [He Hd].
  apply negb_true_iff in Ht, Hl, Hd.
  unfold sanitize, trim, stripEdgeHyphens.
  rewrite (every_slug_trimStart _ He), (every_slug_trimEnd _ He).
  rewrite (every_slug_lower _ He), (every_slug_replaceUnsafe _ He).
  rewrite (no_double_collapse _ Hd).
  assert (stripLeadingHyphen r = r) as ->.
  { destruct r as [|c r]; [reflexivity|]. cbn in *. now rewrite Hl. }
  now apply no_trailing_strip.
Qed.

(** C8. The slug sanitization of [generateShortName] (trim, lowercase,
    replace every character outside [a-z0-9-] by a hyphen, collapse repeated
    hyphens, strip a leading and a trailing hyphen) is idempotent: applied
    twice, it gives what it gives applied once, for every input string. *)
Theorem sanitize_idempotent (content : string) :
  sanitize (sanitize content) = sanitize content.
Proof. apply isSlug_fixed, sanitize_isSlug. Qed.

End SlugFacts.

(** ** Content analyzer *)

Section AnalyzerFacts.
Import Text Js Analyzer.

Lemma assoc_set_same k v l : assoc k (assoc_set k v l) = Some v.
Proof.
  induction l as [|[k' v'] l IH]; cbn [assoc_set assoc].
  - now rewrite String.eqb_refl.
  - destruct (String.eqb k k') eqn:E; cbn [assoc].
    + now rewrite String.eqb_refl.
    + now rewrite E.
Qed.

Lemma rethrow_ok {A} m (r : result A) a : rethrow m r = Ok a -> r = Ok a.
Proof. destruct r; cbn; congruence. Qed.

Lemma bind_ok {A B} (r : result A) (k : A -> result B) b :
  bind r k = Ok b -> exists a, r = Ok a /\ k a = Ok b.
Proof. destruct r; cbn; [eauto | discriminate]. Qed.

Lemma checkInitial_forced dur parsed r :
  num_gt dur (Fin 5) = true ->
  checkInitial dur parsed = Ok r -> needsTranscript r = true.
Proof.
  intros Hd. unfold checkInitial. rewrite Hd.
  intros H. apply bind_ok in H as (analysis & Hset & H).
  assert (get analysis "needsTranscript" = Ok (Some (JBool true))
          \/ get analysis "description" = Ok None) as Hnt.
  { destruct parsed; cbn in Hset; try discriminate;
      injection Hset as <-; cbn [get]; try (right; reflexivity);
      left; now rewrite assoc_set_same. }
  apply bind_ok in H as (d & Hgd & H).
  apply bind_ok in H as (nt & Hgn & H).
  apply bind_ok in H as (kf & Hgk & H).
  destruct Hnt as [Hnt | Hnd].
  - rewrite Hnt in Hgn. injection Hgn as <-.
    destruct (_ || _)%bool; [discriminate|].
    destruct d as [dv|]; [|discriminate].
    destruct kf as [[ | | n | | | ]|]; try discriminate.
    destruct (_ || _)%bool; [discriminate|]. now injection H as <-.
  - rewrite Hnd in Hgd. injection Hgd as <-. cbn in H. discriminate.
Qed.

(** C1. For every asset whose probed duration is greater than 5 seconds, any
    AnalysisResult that [analyzeInitialFrame] returns has
    [needsTranscript = true], whatever the reply of the model says. *)
Theorem analyzeInitialFrame_forces_transcript
    (JSON_parse : string -> option json) (ext : initial_probe)
    (dur : number) (r : AnalysisResult) :
  ffprobe_duration ext = Ok dur ->
  num_gt dur (Fin 5) = true ->
  analyzeInitialFrame JSON_parse ext = Ok r ->
  needsTranscript r = true.
Proof.
  intros Hp Hd. unfold analyzeInitialFrame. rewrite Hp. cbn [bind].
  intros H. apply bind_ok in H as (_ & _ & H).
  apply bind_ok in H as (content & _ & H).
  apply rethrow_ok in H. apply bind_ok in H as (parsed & _ & H).
  eapply checkInitial_forced; eauto.
Qed.

(** The reply says [needsTranscript: false]; the clip lasts ten seconds. *)
Lemma analyzeInitialFrame_forces_transcript_witness :
  exists r,
    get Samples.initialValue "needsTranscript" = Ok (Some (JBool false))
    /\ analyzeInitialFrame Samples.parse Samples.tenSeconds = Ok r
    /\ needsTranscript r = true.
Proof.
  eexists. split; [reflexivity|]. split; [reflexivity|].
  apply (analyzeInitialFrame_forces_transcript
           Samples.parse Samples.tenSeconds (Fin 10)); reflexivity.
Defined.

Lemma num_in_range n :
  num_truthy n = true ->
  (num_lt n (Fin 1) || num_gt n (Fin 9))%bool = false ->
  exists q, n = Fin q /\ (1 <= q)%Q /\ (q <= 9)%Q.
Proof.
  intros Ht H. apply orb_false_elim in H as [H1 H9].
  destruct n as [q| | |]; try discriminate.
  exists q. cbn in H1, H9.
  apply negb_false_iff in H1, H9. apply Qle_bool_iff in H1, H9.
  repeat split; assumption.
Qed.

Lemma checkImportance_ok parsed r :
  checkImportance parsed = Ok r ->
  get parsed "importance" = Ok (Some (JNum (importance r)))
  /\ exists q, importance r = Fin q /\ (1 <= q)%Q /\ (q <= 9)%Q.
Proof.
  unfold checkImportance. intros H.
  apply bind_ok in H as (i & Hi & H).
  apply bind_ok in H as (rs & _ & H).
  apply bind_ok in H as (f & _ & H).
  destruct (negb (truthy i)) eqn:Ht; [discriminate|]. cbn [orb] in H.
  destruct (_ || _)%bool; [discriminate|].
  destruct i as [[ | | n | | | ]|]; try discriminate.
  destruct rs as [rv|]; [|discriminate]. destruct f as [fv|]; [|discriminate].
  destruct (_ || _)%bool eqn:Hr; [discriminate|].
  injection H as <-. cbn [importance]. split; [exact Hi|].
  apply num_in_range; [|exact Hr]. now apply negb_false_iff in Ht.
Qed.

Lemma checkImportance_rejects parsed :
  (forall q, get parsed "importance" = Ok (Some (JNum (Fin q))) ->
             ~ ((1 <= q)%Q /\ (q <= 9)%Q)) ->
  is_ok (checkImportance parsed) = false.
Proof.
  intros Hout. destruct (checkImportance parsed) as [r|m] eqn:E; [|reflexivity].
  apply checkImportance_ok in E as (Hi & q & Hq & Hr).
  rewrite Hq in Hi. now destruct (Hout q Hi).
Qed.

(** C2, as the code has it. Every ImportanceAssessment returned by
    [determineImportance] has as importance a number between 1 and 9 (not
    necessarily an integer), which is the number of the parsed reply; and for
    every parsed reply whose importance is absent, not a number, or outside
    [1,9], [determineImportance] throws: no value is clamped or
    substituted. *)
Theorem determineImportance_in_range
    (JSON_parse : string -> option json) (reply : result (option string)) :
  (forall r, determineImportance JSON_parse reply = Ok r ->
     exists q, importance r = Fin q /\ (1 <= q)%Q /\ (q <= 9)%Q)
  /\ (forall c parsed r,
        reply = Ok (Some c) -> JSON_parse (unfence c) = Some parsed ->
        determineImportance JSON_parse reply = Ok r ->
        get parsed "importance" = Ok (Some (JNum (importance r))))
  /\ (forall c parsed,
        reply = Ok (Some c) -> JSON_parse (unfence c) = Some parsed ->
        (forall q, get parsed "importance" = Ok (Some (JNum (Fin q))) ->
                   ~ ((1 <= q)%Q /\ (q <= 9)%Q)) ->
        determineImportance JSON_parse reply = Throw failed_analysis).
Proof.
  unfold determineImportance. repeat split.
  - intros r H. apply bind_ok in H as (content & _ & H).
    apply rethrow_ok in H. apply bind_ok in H as (parsed & _ & H).
    now apply checkImportance_ok in H as [_ H].
  - intros c parsed r -> Hp. cbn [bind parse_reply]. rewrite Hp.
    intros H. apply rethrow_ok in H. now apply checkImportance_ok in H as [H _].
  - intros c parsed -> Hp Hout. cbn [bind parse_reply]. rewrite Hp.
    apply checkImportance_rejects in Hout. cbn [bind].
    destruct (checkImportance parsed); [discriminate | reflexivity].
Qed.

(** A reply of 5 is returned as 5; a reply of 12 is refused. *)
Lemma determineImportance_in_range_witness :
  (exists q, importance
               {| importance := Fin 5; reason := JStr "scenery";
                  fullDescription := JStr "waves on a beach" |} = Fin q
             /\ (1 <= q)%Q /\ (q <= 9)%Q)
  /\ determineImportance Samples.parse
        (Ok (Some (Samples.importanceText "12"))) = Throw failed_analysis.
Proof.
  split.
  - apply (determineImportance_in_range Samples.parse
             (Ok (Some (Samples.importanceText "5")))).
    reflexivity.
  - apply (determineImportance_in_range Samples.parse
             (Ok (Some (Samples.importanceText "12")))) with
      (c := Samples.importanceText "12")
      (parsed := Samples.importanceValue (Fin 12)); [reflexivity..|].
    intros q H [_ H9]. injection H as <-. revert H9. now vm_compute.
Defined.

(** C2, as the specification has it, fails: the reply
    [{"importance": 3.5, ...}] is returned with importance 3.5, which is not
    an integer. *)
Lemma determineImportance_not_integer :
  determineImportance Samples.parse (Ok (Some (Samples.importanceText "3.5")))
  = Ok {| importance := Fin (7 # 2); reason := JStr "scenery";
          fullDescription := JStr "waves on a beach" |}
  /\ forall z : Z, ~ (7 # 2 == inject_Z z)%Q.
Proof.
  split; [reflexivity|].
  intros z H. unfold Qeq in H. cbn in H. lia.
Qed.

End AnalyzerFacts.

(** ** Pipeline orchestrator *)

Section OrchestratorFacts.
Import Text Js Analyzer Path Orchestrator.

Variable JSON_parse : string -> option json.
Variable ToString : json -> string.

Lemma append_nil (y : string) : EmptyString +:+ y = y.
Proof. reflexivity. Qed.

Lemma append_cons a (x y : string) : String a x +:+ y = String a (x +:+ y).
Proof. reflexivity. Qed.

Lemma trimEnd_space x c :
  is_space c = true -> trimEnd (x +:+ String c EmptyString) = trimEnd x.
Proof.
  intros Hc. induction x as [|a x IH].
  - rewrite append_nil. cbn [trimEnd]. now rewrite Hc.
  - rewrite append_cons. cbn [trimEnd]. now rewrite IH.
Qed.

Lemma trimStart_space c d :
  is_space d = true ->
  trimStart (c +:+ String d EmptyString) =
  match trimStart c with
  | EmptyString => EmptyString
  | r => r +:+ String d EmptyString
  end.
Proof.
  intros Hd. induction c as [|a c IH].
  - rewrite append_nil. cbn [trimStart]. now rewrite Hd.
  - rewrite append_cons. cbn [trimStart].
    destruct (is_space a); [exact IH|reflexivity].
Qed.

Lemma trim_newline c : trim (c +:+ String "010" EmptyString) = trim c.
Proof.
  unfold trim. rewrite trimStart_space by reflexivity.
  destruct (trimStart c) as [|a r]; [reflexivity|].
  now apply (trimEnd_space (String a r)).
Qed.

(** [hasMetadata] holds exactly of a file whose comment Finder can read and
    which is more than white space. *)
Lemma hasMetadata_spec ext w filePath :
  hasMetadata ext w filePath = true <->
  finder_get_ok ext = true /\
  exists comment, files w !! filePath = Some comment
                  /\ trim comment <> EmptyString.
Proof.
  unfold hasMetadata. destruct (finder_get_ok ext).
  - destruct (files w !! filePath) as [comment|].
    + rewrite trim_newline. split.
      * intros H. split; [reflexivity|]. exists comment. split; [reflexivity|].
        intros E. rewrite E in H. discriminate.
      * intros (_ & c & [= <-] & Hc).
        destruct (trim comment); [congruence | reflexivity].
    + split; [discriminate|]. now intros (_ & c & [=] & _).
  - split; [discriminate | now intros [[=] _]].
Qed.

Lemma analyse_inv ext videoPath newFileName s comment :
  analyse JSON_parse ToString ext videoPath = Ok (newFileName, s, comment) ->
  exists a t,
    analyzeInitialFrame JSON_parse (probe ext) = Ok a
    /\ (if needsTranscript a then transcription ext else Ok EmptyString) = Ok t
    /\ transcript s = (if String.eqb t EmptyString then None else Some t)
    /\ filename s = newFileName.
Proof.
  unfold analyse. intros H.
  apply bind_ok in H as (a & Ha & H). apply bind_ok in H as (t & Ht & H).
  apply bind_ok in H as (more & _ & H). apply bind_ok in H as (imp & _ & H).
  apply bind_ok in H as (short & _ & H). injection H as <- <- <-.
  exists a, t. auto.
Qed.

Lemma commit_run ext videoPath newFileName s comment old w :
  append_ok ext = true -> write_ok ext = true ->
  summary_json w <> NotArray -> rename_ok ext = true ->
  files w !! videoPath = Some old ->
  commit ext videoPath newFileName s comment w
  = (Ok (Processed newFileName),
     committed ext videoPath newFileName s comment old w).
Proof.
  intros Happ Hwr Hj Hren Hold.
  unfold commit, writeSummaryFile, rename, setMacMetadataXattr, committed.
  rewrite Happ, Hwr. cbn [negb].
  destruct (summary_json w) eqn:Ej; try contradiction;
    cbn [files summary_txt summary_json priorRecords];
    rewrite Hold, Hren; cbn [files summary_txt summary_json];
    (destruct (finder_set_ok ext); [rewrite lookup_insert_eq|]); reflexivity.
Qed.

Lemma commit_inv ext videoPath newFileName s comment w w' n :
  commit ext videoPath newFileName s comment w = (Ok (Processed n), w') ->
  n = newFileName
  /\ append_ok ext = true /\ write_ok ext = true
  /\ summary_json w <> NotArray /\ rename_ok ext = true
  /\ exists old,
       files w !! videoPath = Some old
       /\ w' = committed ext videoPath newFileName s comment old w.
Proof.
  intros H.
  assert (append_ok ext = true /\ write_ok ext = true
          /\ summary_json w <> NotArray /\ rename_ok ext = true
          /\ exists old, files w !! videoPath = Some old)
    as (Happ & Hwr & Hj & Hren & old & Hold).
  { revert H. unfold commit, writeSummaryFile, rename.
    destruct (append_ok ext); cbn [negb]; [|discriminate].
    destruct (summary_json w) eqn:Ej; try discriminate;
      (destruct (write_ok ext); cbn [negb]; [|discriminate]);
      cbn [files summary_txt summary_json];
      (destruct (files w !! videoPath) as [old|] eqn:Ef; [|discriminate]);
      (destruct (rename_ok ext); [|discriminate]);
      intros _; repeat split; eauto; discriminate. }
  rewrite (commit_run _ _ _ _ _ old) in H by assumption.
  injection H as <- <-. repeat split; eauto.
Qed.

Lemma processVideo_inv ext videoPath force w n w' :
  processVideo JSON_parse ToString ext videoPath force w
    = (Ok (Processed n), w') ->
  (negb force && hasMetadata ext w videoPath)%bool = false
  /\ exists s comment,
       analyse JSON_parse ToString ext videoPath = Ok (n, s, comment)
       /\ commit ext videoPath n s comment w = (Ok (Processed n), w').
Proof.
  unfold processVideo.
  destruct (negb force && hasMetadata ext w videoPath)%bool; [discriminate|].
  destruct (analyse _ _ ext videoPath) as [[[n' s] comment]|] eqn:Ea;
    [|discriminate].
  intros H. split; [reflexivity|]. exists s, comment.
  pose proof (commit_inv _ _ _ _ _ _ _ _ H) as (-> & _). auto.
Qed.

End OrchestratorFacts.

Section CommitFacts.
Import Text Js Analyzer Path Orchestrator.

(** C3, as the code has it. The commit step writes the record and then
    renames: when [fs.rename] fails, [processVideo] throws, the asset keeps
    its name and its comment, and the SummaryRecord of the asset has already
    been appended to the text store and to the JSON store. *)
Theorem record_is_written_before_rename
    (JSON_parse : string -> option json) (ToString : json -> string)
    (ext : externals) (videoPath : path) (force : bool) (w : world)
    (newFileName : string) (s : summary) (comment : string) :
  (negb force && hasMetadata ext w videoPath)%bool = false ->
  analyse JSON_parse ToString ext videoPath = Ok (newFileName, s, comment) ->
  append_ok ext = true -> write_ok ext = true ->
  summary_json w <> NotArray ->
  rename_ok ext = false \/ files w !! videoPath = None ->
  let entry := {| record := s;
                  resolved_path := join (dirname videoPath) newFileName |} in
  exists m,
    processVideo JSON_parse ToString ext videoPath force w =
    (Throw m,
     {| files := files w;
        summary_txt := summary_txt w ++ [entry];
        summary_json := Records (priorRecords (summary_json w) ++ [entry]) |}).
Proof.
  intros Hskip Ha Happ Hwr Hj Hren entry.
  unfold processVideo. rewrite Hskip, Ha.
  unfold commit, writeSummaryFile. rewrite Happ, Hwr. cbn [negb].
  assert (exists l,
    match summary_json w with
    | Absent | Blank | Corrupt => Some []
    | Records l => Some l
    | NotArray => None
    end = Some l /\ l = priorRecords (summary_json w)) as (l & -> & ->).
  { destruct (summary_json w); try (eexists; split; reflexivity).
    contradiction. }
  unfold rename. cbn [files summary_txt summary_json].
  destruct (files w !! videoPath) as [old|] eqn:Ef.
  - destruct Hren as [-> | [=]]. eauto.
  - eauto.
Qed.

Lemma record_is_written_before_rename_witness :
  exists m w',
    processVideo Samples.parse Samples.show
      (withRename false Samples.services) Samples.clip false Samples.freshWorld
    = (Throw m, w')
    /\ length (summary_txt w') = 1.
Proof.
  destruct (record_is_written_before_rename Samples.parse Samples.show
              (withRename false Samples.services) Samples.clip false
              Samples.freshWorld _ _ _ eq_refl eq_refl eq_refl eq_refl
              ltac:(discriminate) (or_introl eq_refl)) as [m H].
  exists m. eexists. split; [exact H | reflexivity].
Defined.

(** C3, as the specification has it, fails: the rename of the sample clip
    fails, and both stores hold its record. *)
Lemma rename_failure_keeps_record :
  let '(r, w') :=
    processVideo Samples.parse Samples.show
      (withRename false Samples.services) Samples.clip false Samples.freshWorld in
  r = Throw "rename failed"
  /\ length (summary_txt Samples.freshWorld) = 0
  /\ length (priorRecords (summary_json Samples.freshWorld)) = 0
  /\ length (summary_txt w') = 1
  /\ length (priorRecords (summary_json w')) = 1.
Proof. vm_compute. repeat split. Qed.

(** C4, as the code has it. For every successfully processed asset, the
    persisted SummaryRecord holds the transcript when transcription was
    performed and returned a non-empty text; it holds [null] both when the
    service returned the empty string and when transcription was skipped. *)
Theorem stored_transcript
    (JSON_parse : string -> option json) (ToString : json -> string)
    (ext : externals) (videoPath : path) (force : bool) (w w' : world)
    (n : string) :
  processVideo JSON_parse ToString ext videoPath force w
    = (Ok (Processed n), w') ->
  exists a e,
    analyzeInitialFrame JSON_parse (probe ext) = Ok a
    /\ summary_txt w' = (summary_txt w ++ [e])%list
    /\ summary_json w' = Records (priorRecords (summary_json w) ++ [e])
    /\ transcript (record e) =
       if needsTranscript a then
         match transcription ext with
         | Ok t => if String.eqb t EmptyString then None else Some t
         | Throw _ => None
         end
       else None.
Proof.
  intros H. apply processVideo_inv in H as (_ & s & comment & Ha & Hc).
  apply analyse_inv in Ha as (a & t & Ha & Ht & Hs & _).
  apply commit_inv in Hc as (_ & _ & _ & _ & _ & old & _ & ->).
  exists a, {| record := s; resolved_path := join (dirname videoPath) n |}.
  split; [exact Ha|]. split; [reflexivity|]. split; [reflexivity|].
  cbn [record]. rewrite Hs.
  destruct (needsTranscript a); [now rewrite Ht | now injection Ht as <-].
Qed.

Lemma stored_transcript_witness :
  exists a e w',
    analyzeInitialFrame Samples.parse (probe Samples.services) = Ok a
    /\ needsTranscript a = true
    /\ summary_txt w' = [e]
    /\ transcript (record e) = None.
Proof.
  destruct (stored_transcript Samples.parse Samples.show Samples.services
              Samples.clip false Samples.freshWorld _ _ eq_refl)
    as (a & e & Ha & Htxt & _ & Ht).
  exists a, e. eexists. vm_compute in Ha. injection Ha as <-.
  repeat split; [exact Htxt | exact Ht].
Defined.

(** C4, as the specification has it, fails: the sample clip is transcribed,
    the service returns the empty string, and the record persisted in both
    stores has [null] for its transcript. *)
Lemma empty_transcript_is_null :
  let '(r, w') :=
    processVideo Samples.parse Samples.show Samples.services Samples.clip
      false Samples.freshWorld in
  (needsTranscript <$>
     match analyzeInitialFrame Samples.parse (probe Samples.services) with
     | Ok a => Some a
     | Throw _ => None
     end) = Some true
  /\ transcription Samples.services = Ok EmptyString
  /\ r = Ok (Processed "5_beach-sunset-walk-k3x9.mov")
  /\ (transcript ∘ record <$> summary_txt w') = [None]
  /\ (transcript ∘ record <$> priorRecords (summary_json w')) = [None].
Proof. vm_compute. repeat split. Qed.

End CommitFacts.

Section MarkerFacts.
Import Text Js Analyzer Path Orchestrator.

(** C6, as the code has it. For every asset whose comment Finder can read
    and whose comment is non-empty once surrounding white space is trimmed,
    [processVideo] with [force = false] writes nothing to the JSON store or
    the text store and leaves the file under its path: the world is
    unchanged and the run is reported as skipped. *)
Theorem annotated_asset_is_skipped
    (JSON_parse : string -> option json) (ToString : json -> string)
    (ext : externals) (videoPath : path) (w : world) (comment : string) :
  finder_get_ok ext = true ->
  files w !! videoPath = Some comment ->
  trim comment <> EmptyString ->
  processVideo JSON_parse ToString ext videoPath false w = (Ok Skipped, w).
Proof.
  intros Hf Hc Ht. unfold processVideo.
  assert (hasMetadata ext w videoPath = true) as ->; [|reflexivity].
  apply hasMetadata_spec. eauto.
Qed.

(** The clip as the sample run leaves it, run again without [--force]. *)
Lemma annotated_asset_is_skipped_witness :
  let w :=
    snd (processVideo Samples.parse Samples.show Samples.services
           Samples.clip false Samples.freshWorld) in
  processVideo Samples.parse Samples.show Samples.services
    ["videos"; "5_beach-sunset-walk-k3x9.mov"] false w = (Ok Skipped, w).
Proof.
  intros w.
  apply (annotated_asset_is_skipped Samples.parse Samples.show
           Samples.services _ w "waves on a beach Importance: 5/9 - scenery").
  - reflexivity.
  - vm_compute. reflexivity.
  - vm_compute. discriminate.
Defined.

(** C6, as the specification has it, fails: the comment of the clip is one
    space, which is not empty, and the run without [--force] appends a
    record to both stores and renames the file. *)
Lemma blank_comment_is_processed :
  let '(r, w') :=
    processVideo Samples.parse Samples.show Samples.services Samples.clip
      false Samples.blankWorld in
  files Samples.blankWorld !! Samples.clip = Some " "
  /\ r = Ok (Processed "5_beach-sunset-walk-k3x9.mov")
  /\ length (summary_txt w') = 1
  /\ length (priorRecords (summary_json w')) = 1
  /\ files w' !! Samples.clip = None.
Proof. vm_compute. repeat split. Qed.

(** The skip of line 619 does not fire on a file whose comment is blank. *)
Lemma blank_marker_is_not_skipped
    (JSON_parse : string -> option json) (ToString : json -> string)
    (ext : externals) (w : world) (p : path) (comment : string) :
  files w !! p = Some comment -> trim comment = EmptyString ->
  processVideo JSON_parse ToString ext p false w
  = processVideo JSON_parse ToString ext p true w.
Proof.
  intros Hc Ht. unfold processVideo.
  destruct (hasMetadata ext w p) eqn:E; [|reflexivity].
  apply hasMetadata_spec in E as (_ & c & Hc' & Hn). congruence.
Qed.

(** C9. When the osascript that writes the comment fails, [processVideo]
    completes as it does when the write succeeds: it returns the same new
    name, both stores hold the appended SummaryRecord, the file is under its
    new name, and its comment is the one it had. If that comment was blank,
    a later run on the renamed file with [force = false] is not skipped: it
    behaves as a forced run, and so processes and appends again. *)
Theorem comment_failure_is_swallowed
    (JSON_parse : string -> option json) (ToString : json -> string)
    (ext : externals) (videoPath : path) (force : bool) (w w1 : world)
    (n : string) :
  processVideo JSON_parse ToString (withFinderSet true ext) videoPath force w
    = (Ok (Processed n), w1) ->
  let newPath := join (dirname videoPath) n in
  exists w2 e,
    processVideo JSON_parse ToString (withFinderSet false ext) videoPath force w
      = (Ok (Processed n), w2)
    /\ summary_txt w2 = (summary_txt w ++ [e])%list
    /\ summary_json w2 = Records (priorRecords (summary_json w) ++ [e])
    /\ summary_txt w2 = summary_txt w1
    /\ summary_json w2 = summary_json w1
    /\ is_Some (files w !! videoPath)
    /\ files w2 !! newPath = files w !! videoPath
    /\ (newPath <> videoPath -> files w2 !! videoPath = None)
    /\ (forall comment later,
          files w !! videoPath = Some comment -> trim comment = EmptyString ->
          processVideo JSON_parse ToString later newPath false w2
          = processVideo JSON_parse ToString later newPath true w2).
Proof.
  intros H newPath.
  apply processVideo_inv in H as (Hskip & s & comment & Ha & Hc).
  apply commit_inv in Hc as (_ & Happ & Hwr & Hj & Hren & old & Hold & ->).
  set (e := {| record := s; resolved_path := newPath |}).
  exists (committed (withFinderSet false ext) videoPath n s comment old w), e.
  repeat split; try reflexivity.
  - unfold processVideo.
    change (hasMetadata (withFinderSet false ext))
      with (hasMetadata (withFinderSet true ext)). rewrite Hskip.
    change (analyse JSON_parse ToString (withFinderSet false ext) videoPath)
      with (analyse JSON_parse ToString (withFinderSet true ext) videoPath).
    rewrite Ha. now apply commit_run.
  - eauto.
  - cbn [committed files withFinderSet finder_set_ok].
    fold newPath. now rewrite lookup_insert_eq.
  - intros Hne. cbn [committed files withFinderSet finder_set_ok].
    fold newPath. rewrite lookup_insert_ne by exact Hne.
    apply lookup_delete_eq.
  - intros c later Hc Ht.
    apply (blank_marker_is_not_skipped _ _ later _ newPath c); [|exact Ht].
    cbn [committed files withFinderSet finder_set_ok].
    fold newPath. rewrite lookup_insert_eq. congruence.
Qed.

(** The comment of the sample clip cannot be written: the clip is renamed
    and recorded, its comment stays empty, and the next run without
    [--force] records it a second time. *)
Lemma comment_failure_is_swallowed_witness :
  exists w2,
    processVideo Samples.parse Samples.show
      (withFinderSet false Samples.services) Samples.clip false
      Samples.freshWorld
    = (Ok (Processed "5_beach-sunset-walk-k3x9.mov"), w2)
    /\ files w2 !! ["videos"; "5_beach-sunset-walk-k3x9.mov"]
       = Some EmptyString
    /\ length (summary_txt w2) = 1
    /\ length (summary_txt
                 (snd (processVideo Samples.parse Samples.show Samples.services
                         ["videos"; "5_beach-sunset-walk-k3x9.mov"] false w2)))
       = 2.
Proof.
  destruct (comment_failure_is_swallowed Samples.parse Samples.show
              Samples.services Samples.clip false Samples.freshWorld _
              "5_beach-sunset-walk-k3x9.mov" eq_refl)
    as (w2 & e & Hrun & Htxt & _ & _ & _ & _ & Hnew & _ & Hlater).
  specialize (Hlater EmptyString Samples.services eq_refl eq_refl).
  change (join (dirname Samples.clip) "5_beach-sunset-walk-k3x9.mov")
    with ["videos"; "5_beach-sunset-walk-k3x9.mov"] in Hnew, Hlater.
  exists w2. split; [exact Hrun|]. split; [exact Hnew|].
  split; [now rewrite Htxt|].
  rewrite Hlater.
  vm_compute in Hrun. injection Hrun as <-. vm_compute. reflexivity.
Defined.

End MarkerFacts.

(** ** Compression stage *)

Section RetryFacts.
Import Text Js Path Compressor.

Lemma compressVideo_body ext cwd inputPath outputPath retryCount fs :
  compressVideo ext cwd inputPath outputPath retryCount fs =
  match oneAttempt (ext retryCount) cwd inputPath outputPath fs with
  | Completed fs' => (Ok tt, fs', [Started])
  | Fatal m fs' => (Throw m, fs', [Started])
  | Caught s m fs' =>
      if decide (retryCount < MAX_RETRIES) then
        if worthRetrying s m then
          let '(r, fs'', t) :=
            compressVideo ext cwd inputPath outputPath (S retryCount) fs' in
          (r, fs'', Started :: Waited RETRY_DELAY :: t)
        else (Throw m, fs', [Started])
      else (Throw (givenUp s m), fs', [Started])
  end.
Proof.
  simp compressVideo.
  destruct (oneAttempt (ext retryCount) cwd inputPath outputPath fs)
    as [fs'|m fs'|s m fs']; simp compressVideo; try reflexivity.
  destruct (lt_dec retryCount MAX_RETRIES) as [Hlt|Hge];
    simp compressVideo; destruct (decide _); try lia; try reflexivity.
  destruct (worthRetrying s m); simp compressVideo; reflexivity.
Qed.






End RetryFacts.

(** ** The file system of the batch driver *)

Section FileSystemFacts.
Import Text Js Path Compressor.

Implicit Types (fs : fsys) (p q k d : path).

Lemma lookup_fs_remove p fs k :
  fs_remove p fs !! k = if decide (inside p k) then None else fs !! k.
Proof.
  unfold fs_remove. destruct (decide (inside p k)) as [Hin|Hout].
  - apply map_lookup_filter_None. right. intros x _ Hn. now apply Hn.
  - destruct (fs !! k) as [x|] eqn:E.
    + apply map_lookup_filter_Some. auto.
    + apply map_lookup_filter_None. now left.
Qed.

Lemma lookup_fs_emptyDir d fs k :
  fs_emptyDir d fs !! k = if decide (below d k) then None else fs !! k.
Proof.
  unfold fs_emptyDir. destruct (decide (below d k)) as [Hin|Hout].
  - apply map_lookup_filter_None. right. intros x _ Hn. now apply Hn.
  - destruct (fs !! k) as [x|] eqn:E.
    + apply map_lookup_filter_Some. auto.
    + apply map_lookup_filter_None. now left.
Qed.

Lemma fs_ensureDir_ok d fs fs' :
  fs_ensureDir d fs = Ok fs' ->
  fs' !! d = Some Dir /\ forall k, k <> d -> fs' !! k = fs !! k.
Proof.
  unfold fs_ensureDir. destruct (fs !! d) as [[data|]|] eqn:E;
    [discriminate | |]; intros [= <-].
  - auto.
  - split; [apply lookup_insert_eq|]. intros k Hk.
    now apply lookup_insert_ne.
Qed.







Lemma inside_refl p : inside p p.
Proof. reflexivity. Qed.

Lemma below_inside p q : below p q -> inside p q.
Proof. now intros [H _]. Qed.

Lemma encode_frame a inputPath outputPath fs k :
  k <> outputPath -> (encode a inputPath outputPath fs).2 !! k = fs !! k.
Proof.
  intros Hk. unfold encode.
  destruct (fs !! inputPath) as [[bytes|]|]; try reflexivity.
  destruct (ffmpeg a) as [data|m [data|]]; cbn [snd];
    try reflexivity; now apply lookup_insert_ne.
Qed.

Lemma encode_ok a inputPath outputPath fs fs' :
  encode a inputPath outputPath fs = (Ok tt, fs') ->
  (exists bytes, fs !! inputPath = Some (File bytes))
  /\ exists data, fs' !! outputPath = Some (File data).
Proof.
  unfold encode. destruct (fs !! inputPath) as [[bytes|]|]; try discriminate.
  destruct (ffmpeg a) as [data|m [data|]]; try discriminate.
  intros [= <-]. split; [eauto|]. exists data. apply lookup_insert_eq.
Qed.

Lemma oneAttempt_frame a cwd inputPath outputPath fs k :
  ~ inside (scratch cwd) k -> k <> outputPath ->
  after (oneAttempt a cwd inputPath outputPath fs) !! k = fs !! k.
Proof.
  intros Hs Ho. unfold oneAttempt.
  destruct (_ && _)%bool; [reflexivity|].
  destruct (match fs !! inputPath with None => _ | Some _ => _ end);
    [reflexivity|].
  destruct (ffprobe_error a); [reflexivity|].
  destruct (stat_error a); [reflexivity|].
  destruct (fs_ensureDir (scratch cwd) fs) as [fs1|m] eqn:E1; [|reflexivity].
  apply fs_ensureDir_ok in E1 as [_ E1].
  assert (k <> scratch cwd) as Hk by (intros ->; apply Hs, inside_refl).
  pose proof (encode_frame a inputPath outputPath
                (fs_emptyDir (scratch cwd) fs1) k Ho) as Henc.
  destruct (encode a inputPath outputPath (fs_emptyDir (scratch cwd) fs1))
    as [[u|m] fs3]; cbn [snd] in Henc; cbn [after];
    rewrite lookup_fs_remove, decide_False by exact Hs;
    rewrite Henc, lookup_fs_emptyDir, decide_False
      by (intros Hb; apply Hs, below_inside, Hb);
    now apply E1.
Qed.

Lemma oneAttempt_completed a cwd inputPath outputPath fs fs' :
  oneAttempt a cwd inputPath outputPath fs = Completed fs' ->
  ~ inside (scratch cwd) inputPath
  /\ (~ inside (scratch cwd) outputPath ->
      exists data, fs' !! outputPath = Some (File data)).
Proof.
  unfold oneAttempt.
  destruct (_ && _)%bool; [discriminate|].
  destruct (match fs !! inputPath with None => _ | Some _ => _ end);
    [discriminate|].
  destruct (ffprobe_error a); [discriminate|].
  destruct (stat_error a); [discriminate|].
  destruct (fs_ensureDir (scratch cwd) fs) as [fs1|m] eqn:E1; [|discriminate].
  apply fs_ensureDir_ok in E1 as [Hdir _].
  destruct (encode a inputPath outputPath (fs_emptyDir (scratch cwd) fs1))
    as [[[]|m] fs3] eqn:E; [|discriminate].
  intros [= <-]. apply encode_ok in E as [[bytes Hin] [data Hout]].
  rewrite lookup_fs_emptyDir in Hin. split.
  - intros Hs. destruct (decide (below (scratch cwd) inputPath)) as [|Hnb];
      [discriminate|].
    destruct (decide (inputPath = scratch cwd)) as [->|Hne]; [congruence|].
    apply Hnb. now split.
  - intros Hs. exists data. now rewrite lookup_fs_remove, decide_False.
Qed.

Lemma compressVideo_frame ext cwd inputPath outputPath k fuel :
  ~ inside (scratch cwd) k -> k <> outputPath ->
  forall retryCount fs,
    MAX_RETRIES - retryCount <= fuel ->
    (compressVideo ext cwd inputPath outputPath retryCount fs).1.2 !! k
    = fs !! k.
Proof.
  intros Hs Ho. induction fuel as [|fuel IH]; intros retryCount fs Hfuel;
    rewrite compressVideo_body;
    pose proof (oneAttempt_frame (ext retryCount) cwd inputPath outputPath
                  fs k Hs Ho) as Hone;
    destruct (oneAttempt _ _ _ _ _) as [fs'|m fs'|s m fs'];
    cbn [after] in Hone; try exact Hone;
    (destruct (decide _) as [Hlt|Hge]; [|exact Hone]);
    try (unfold MAX_RETRIES in *; lia);
    (destruct (worthRetrying s m); [|exact Hone]).
  specialize (IH (S retryCount) fs' ltac:(unfold MAX_RETRIES in *; lia)).
  destruct (compressVideo ext cwd inputPath outputPath (S retryCount) fs')
    as [[r fs''] t]. cbn in IH |- *. congruence.
Qed.

Lemma compressVideo_ok ext cwd inputPath outputPath fuel :
  forall retryCount fs fs' t,
    MAX_RETRIES - retryCount <= fuel ->
    compressVideo ext cwd inputPath outputPath retryCount fs = (Ok tt, fs', t) ->
    ~ inside (scratch cwd) inputPath
    /\ (~ inside (scratch cwd) outputPath ->
        exists data, fs' !! outputPath = Some (File data)).
Proof.
  induction fuel as [|fuel IH]; intros retryCount fs fs' t Hfuel;
    rewrite compressVideo_body;
    pose proof (oneAttempt_completed (ext retryCount) cwd inputPath outputPath
                  fs) as Hone;
    destruct (oneAttempt _ _ _ _ _) as [fs1|m fs1|s m fs1];
    try discriminate;
    try (intros [= <- <-]; now apply Hone);
    (destruct (decide _) as [Hlt|Hge]; [|discriminate]);
    try (unfold MAX_RETRIES in *; lia);
    (destruct (worthRetrying s m); [|discriminate]).
  specialize (IH (S retryCount) fs1).
  destruct (compressVideo ext cwd inputPath outputPath (S retryCount) fs1)
    as [[r fs''] t']. intros [= -> -> <-].
  apply (IH fs' t'); [unfold MAX_RETRIES in *; lia | reflexivity].
Qed.

End FileSystemFacts.

(** ** Names and paths *)

Section NameFacts.
Import Text Path Compressor.

Lemma length_append (x y : string) :
  String.length (x +:+ y) = String.length x + String.length y.
Proof.
  induction x as [|c x IH]; [reflexivity|].
  rewrite append_cons. cbn [String.length]. now rewrite IH.
Qed.


Lemma endsWith_refl p : endsWith p p = true.
Proof. destruct p; cbn [endsWith]; now rewrite String.eqb_refl. Qed.

Lemma endsWith_append x p : endsWith (x +:+ p) p = true.
Proof.
  induction x as [|c x IH]; [rewrite append_nil; apply endsWith_refl|].
  rewrite append_cons. cbn [endsWith]. rewrite IH. apply orb_true_r.
Qed.

Lemma endsWith_length s p :
  endsWith s p = true -> String.length p <= String.length s.
Proof.
  induction s as [|c s IH]; cbn [endsWith]; intros H;
    apply orb_prop in H as [H|H]; try discriminate.
  - apply String.eqb_eq in H as <-. lia.
  - apply String.eqb_eq in H as <-. lia.
  - specialize (IH H). cbn [String.length]. lia.
Qed.

Lemma endsWith_unique s p q :
  endsWith s p = true -> endsWith s q = true ->
  String.length p = String.length q -> p = q.
Proof.
  induction s as [|c s IH]; cbn [endsWith]; intros Hp Hq Hl;
    apply orb_prop in Hp as [Hp|Hp]; apply orb_prop in Hq as [Hq|Hq];
    try discriminate;
    try apply String.eqb_eq in Hp; try apply String.eqb_eq in Hq.
  - congruence.
  - congruence.
  - apply endsWith_length in Hq. subst p. cbn [String.length] in Hl. lia.
  - apply endsWith_length in Hp. subst q. cbn [String.length] in Hl. lia.
  - auto.
Qed.

Lemma length_map_chars f s : String.length (map_chars f s) = String.length s.
Proof. induction s as [|c s IH]; cbn; congruence. Qed.

Lemma endsWith_map_chars f s p :
  endsWith s p = true -> endsWith (map_chars f s) (map_chars f p) = true.
Proof.
  induction s as [|c s IH]; cbn [endsWith]; intros H;
    apply orb_prop in H as [H|H]; try discriminate.
  - apply String.eqb_eq in H as <-. apply endsWith_refl.
  - apply String.eqb_eq in H as <-. apply endsWith_refl.
  - cbn [map_chars endsWith]. rewrite (IH H). apply orb_true_r.
Qed.



Lemma replaceTrailing_none p r s :
  endsWith s p = false -> replaceTrailing p r s = s.
Proof.
  induction s as [|c s IH]; cbn [endsWith replaceTrailing]; intros H;
    apply orb_false_elim in H as [H1 H2]; rewrite H1; [reflexivity|].
  now rewrite (IH H2).
Qed.

Lemma replaceTrailing_append p r a :
  replaceTrailing p r (a +:+ p) = a +:+ r.
Proof.
  induction a as [|c a IH].
  - rewrite !append_nil. destruct p; cbn [replaceTrailing];
      now rewrite String.eqb_refl.
  - rewrite !append_cons. cbn [replaceTrailing].
    destruct (String.eqb (String c (a +:+ p)) p) eqn:E.
    + apply String.eqb_eq in E. apply (f_equal String.length) in E.
      cbn [String.length] in E. rewrite length_append in E. lia.
    + now rewrite IH.
Qed.

Lemma replaceMovSuffix_join dir name :
  replaceMovSuffix (join dir name)
  = join dir (replaceTrailing ".mov" ".mp4" name).
Proof.
  unfold replaceMovSuffix, join.
  destruct (dir ++ [name])%list eqn:E; [now destruct dir|]. rewrite <- E.
  now rewrite removelast_last, last_last.
Qed.

(** On the path written out with slashes, [/\.mov$/] rewrites the last
    component and nothing else. *)
Lemma replaceTrailing_component x name :
  replaceTrailing ".mov" ".mp4" (x +:+ String "/" name)
  = x +:+ String "/" (replaceTrailing ".mov" ".mp4" name).
Proof.
  induction x as [|c x IH]; [reflexivity|].
  rewrite (append_cons c x (String "/" name)).
  rewrite (append_cons c x (String "/" _)).
  cbn [replaceTrailing]. rewrite IH.
  destruct (String.eqb (String c (x +:+ String "/" name)) ".mov") eqn:E;
    [|reflexivity].
  apply String.eqb_eq in E.
  destruct x as [|c1 [|c2 [|c3 [|c4 x]]]]; discriminate.
Qed.

Lemma append_assoc (x y z : string) : (x +:+ y) +:+ z = x +:+ (y +:+ z).
Proof.
  induction x as [|c x IH]; [reflexivity|].
  rewrite !append_cons. now rewrite IH.
Qed.

Lemma append_nil_r (x : string) : x +:+ EmptyString = x.
Proof.
  induction x as [|c x IH]; [reflexivity|]. rewrite append_cons. now rewrite IH.
Qed.

Lemma render_join dir name :
  render (join dir name) = render dir +:+ String "/" name.
Proof.
  unfold join. induction dir as [|c dir IH]; cbn [app render].
  - now rewrite append_nil_r.
  - rewrite IH. change ("/" +:+ c +:+ ?y) with (String "/" (c +:+ y)).
    rewrite !append_cons. now rewrite append_assoc.
Qed.

Lemma replaceMovSuffix_render dir name :
  render (replaceMovSuffix (join dir name))
  = replaceTrailing ".mov" ".mp4" (render (join dir name)).
Proof.
  now rewrite replaceMovSuffix_join, !render_join, replaceTrailing_component.
Qed.

Lemma dirname_join dir name : dirname (join dir name) = dir.
Proof. apply removelast_last. Qed.




Lemma join_inj dir dir' x y : join dir x = join dir' y -> x = y.
Proof. unfold join. intros H. now apply app_inj_tail in H as [_ H]. Qed.




End NameFacts.

(** ** Clobber mode *)

Section ClobberFacts.
Import Text Js Path Compressor.

Implicit Types (fs : fsys) (p q k dir cwd : path) (name : string).







End ClobberFacts.

Section ClobberClaims.
Import Text Js Path Compressor.









End ClobberClaims.

(** * Further properties of the code *)

(** ** The slug and the Markdown fence *)

Section ReplyFacts.
Import Text Js Analyzer Notions.

(** X1. The slug chain of [generateShortName] always yields a string of
    [a-z0-9-] without two hyphens in a row and without a hyphen at either
    end, and the strings it leaves unchanged are exactly the strings of that
    form. *)
Theorem sanitize_fixed_points (content : string) :
  isSlug (sanitize content) = true
  /\ (sanitize content = content <-> isSlug content = true).
Proof.
  split; [apply sanitize_isSlug|]. split.
  - intros H. rewrite <- H. apply sanitize_isSlug.
  - apply isSlug_fixed.
Qed.

Lemma dropPrefix_append p rest : dropPrefix p (p +:+ rest) = Some rest.
Proof.
  induction p as [|a p IH]; [reflexivity|].
  rewrite append_cons. cbn [dropPrefix]. now rewrite Ascii.eqb_refl.
Qed.

Lemma trimEnd_inked x c :
  is_space c = false ->
  trimEnd (x +:+ String c EmptyString) = x +:+ String c EmptyString.
Proof.
  intros Hc. induction x as [|a x IH].
  - rewrite append_nil. cbn [trimEnd]. now rewrite Hc.
  - rewrite append_cons. cbn [trimEnd]. rewrite IH.
    destruct x; reflexivity.
Qed.

(** X2. A reply wrapped in a Markdown fence ([```json], newline, body,
    newline, [```]) is handed to [JSON.parse] as its body, trimmed: the same
    text as for the bare body when that is already free of a fence. *)
Theorem unfence_fence (body : string) : unfence (fence body) = trim body.
Proof.
  unfold unfence, fence.
  assert (forall x, trim (String "`" (x +:+ "`")) = String "`" (x +:+ "`"))
    as Htrim.
  { intros x. unfold trim. cbn [trimStart].
    change (is_space "`") with false. cbv iota.
    apply (trimEnd_inked (String "`" x)). reflexivity. }
  change (("```json" +:+ String "010" EmptyString) +:+ body
          +:+ String "010" "```")
    with (String "`" ("``json" +:+ String "010" EmptyString +:+ body
                      +:+ String "010" "``" +:+ "`")).
  rewrite <- !append_assoc. rewrite Htrim. rewrite !append_assoc.
  change (String "`" ("``json" +:+ String "010" EmptyString +:+ body
                      +:+ String "010" "``" +:+ "`"))
    with (("```json" +:+ String "010" EmptyString)
          +:+ (body +:+ String "010" "```")).
  unfold removeLeading. rewrite dropPrefix_append.
  now rewrite replaceTrailing_append, append_nil_r.
Qed.

End ReplyFacts.

(** ** The initial analysis *)

Section InitialFacts.
Import Text Js Analyzer Notions.

Lemma assoc_set_other k k' v l :
  k <> k' -> assoc k (assoc_set k' v l) = assoc k l.
Proof.
  intros Hk. induction l as [|[k0 v0] l IH]; cbn [assoc_set assoc].
  - destruct (String.eqb k k') eqn:E; [|reflexivity].
    apply String.eqb_eq in E. contradiction.
  - destruct (String.eqb k' k0) eqn:E0; cbn [assoc].
    + apply String.eqb_eq in E0 as <-.
      destruct (String.eqb k k') eqn:E; [|reflexivity].
      apply String.eqb_eq in E. contradiction.
    + now rewrite IH.
Qed.

Lemma get_set_other o o' k k' v :
  k <> k' -> set o k' v = Ok o' -> get o' k = get o k.
Proof.
  intros Hk. destruct o; cbn [set]; intros [= <-]; cbn [get];
    try reflexivity; now rewrite assoc_set_other.
Qed.

Lemma checkInitial_fields dur parsed r :
  checkInitial dur parsed = Ok r ->
  duration r = dur
  /\ get parsed "description" = Ok (Some (description r))
  /\ truthy (Some (description r)) = true
  /\ get parsed "additionalKeyframes" = Ok (Some (JNum (additionalKeyframes r)))
  /\ num_lt (additionalKeyframes r) (Fin 0) = false
  /\ num_gt (additionalKeyframes r) (Fin 4) = false
  /\ (num_gt dur (Fin 5) = false ->
      get parsed "needsTranscript" = Ok (Some (JBool (needsTranscript r)))).
Proof.
  unfold checkInitial. intros H.
  apply bind_ok in H as (analysis & Hset & H).
  assert (forall k, k <> "needsTranscript" -> get analysis k = get parsed k)
    as Hother.
  { intros k Hk. destruct (num_gt dur (Fin 5)).
    - now apply (get_set_other parsed analysis k "needsTranscript" (JBool true)).
    - now injection Hset as <-. }
  assert (num_gt dur (Fin 5) = false -> analysis = parsed) as Hsame.
  { intros E. rewrite E in Hset. now injection Hset. }
  apply bind_ok in H as (d & Hd & H). apply bind_ok in H as (nt & Hn & H).
  apply bind_ok in H as (kf & Hk & H).
  rewrite Hother in Hd, Hk by discriminate.
  destruct (negb (truthy d)) eqn:Ht; [discriminate|]. cbn [orb] in H.
  destruct (_ || _)%bool; [discriminate|].
  destruct d as [dv|]; [|discriminate].
  destruct nt as [[ |b| | | | ]|]; try discriminate.
  destruct kf as [[ | |n| | | ]|]; try discriminate.
  destruct (_ || _)%bool eqn:Hr; [discriminate|].
  apply orb_false_elim in Hr as [H0 H4]. injection H as <-.
  cbn [duration description additionalKeyframes needsTranscript].
  repeat split; auto.
  - now apply negb_false_iff in Ht.
  - intros E. rewrite <- (Hsame E). exact Hn.
Qed.

(** X3. What [analyzeInitialFrame] returns is read off the parsed reply:
    the description is the reply's and is truthy, the number of additional
    keyframes is the reply's and is neither below 0 nor above 4, the
    duration is the probed one, and for a clip of at most 5 seconds
    [needsTranscript] is the reply's own boolean. *)
Theorem analyzeInitialFrame_returns_reply
    (JSON_parse : string -> option json) (ext : initial_probe)
    (r : AnalysisResult) :
  analyzeInitialFrame JSON_parse ext = Ok r ->
  exists content parsed,
    initial_reply ext = Ok (Some content)
    /\ JSON_parse (unfence content) = Some parsed
    /\ ffprobe_duration ext = Ok (duration r)
    /\ get parsed "description" = Ok (Some (description r))
    /\ truthy (Some (description r)) = true
    /\ get parsed "additionalKeyframes"
       = Ok (Some (JNum (additionalKeyframes r)))
    /\ num_lt (additionalKeyframes r) (Fin 0) = false
    /\ num_gt (additionalKeyframes r) (Fin 4) = false
    /\ (num_gt (duration r) (Fin 5) = false ->
        get parsed "needsTranscript" = Ok (Some (JBool (needsTranscript r)))).
Proof.
  unfold analyzeInitialFrame. intros H.
  apply bind_ok in H as (dur & Hdur & H). apply bind_ok in H as (_ & _ & H).
  apply bind_ok in H as (content & Hc & H). apply rethrow_ok in H.
  apply bind_ok in H as (parsed & Hp & H).
  destruct content as [c|]; [|discriminate]. cbn [parse_reply] in Hp.
  destruct (JSON_parse (unfence c)) as [v|] eqn:Ev; [|discriminate].
  injection Hp as ->.
  apply checkInitial_fields in H as (<- & Hd & Ht & Hk & H0 & H4 & Hn).
  exists c, parsed. repeat split; auto.
Qed.

(** X4. For a clip longer than 5 seconds the override also stands in for a
    [needsTranscript] the reply lacks or gives with another type: such a
    reply, valid otherwise, is accepted with [needsTranscript = true],
    whereas for a clip of at most 5 seconds it is refused. *)
Theorem override_repairs_reply
    (dur : number) (fields : list (string * json)) (d : json) (n : number) :
  assoc "description" fields = Some d -> truthy (Some d) = true ->
  assoc "additionalKeyframes" fields = Some (JNum n) ->
  num_lt n (Fin 0) = false -> num_gt n (Fin 4) = false ->
  is_type TBoolean (assoc "needsTranscript" fields) = false ->
  checkInitial dur (JObj fields)
  = if num_gt dur (Fin 5)
    then Ok {| description := d; needsTranscript := true;
               additionalKeyframes := n; duration := dur |}
    else Throw "Invalid response format from OpenAI".
Proof.
  intros Hd Ht Hk H0 H4 Hn. unfold checkInitial.
  destruct (num_gt dur (Fin 5)); cbn [bind set get].
  - rewrite (assoc_set_other "description") by discriminate.
    rewrite (assoc_set_other "additionalKeyframes") by discriminate.
    rewrite assoc_set_same, Hd, Hk, Ht.
    cbn [negb orb is_type typeof]. now rewrite H0, H4.
  - rewrite Hd, Hk, Ht, Hn. reflexivity.
Qed.

Lemma override_repairs_reply_witness :
  checkInitial (Fin 10)
    (JObj [("description", JStr "a beach at dusk");
           ("additionalKeyframes", JNum (Fin 2))])
  = Ok {| description := JStr "a beach at dusk"; needsTranscript := true;
          additionalKeyframes := Fin 2; duration := Fin 10 |}
  /\ checkInitial (Fin 3)
       (JObj [("description", JStr "a beach at dusk");
              ("additionalKeyframes", JNum (Fin 2))])
     = Throw "Invalid response format from OpenAI".
Proof.
  split.
  - apply (override_repairs_reply (Fin 10) _ (JStr "a beach at dusk") (Fin 2));
      reflexivity.
  - apply (override_repairs_reply (Fin 3) _ (JStr "a beach at dusk") (Fin 2));
      reflexivity.
Defined.

Lemma analyzeInitialFrame_returns_reply_witness :
  exists parsed,
    Samples.parse (unfence Samples.initialText) = Some parsed
    /\ get parsed "additionalKeyframes" = Ok (Some (JNum (Fin 0))).
Proof.
  destruct (analyzeInitialFrame_returns_reply Samples.parse Samples.tenSeconds
              _ eq_refl)
    as (content & parsed & Hc & Hp & _ & _ & _ & Hk & _).
  injection Hc as <-. exists parsed. split; [exact Hp | exact Hk].
Defined.

End InitialFacts.

(** ** Frames, comments and names of the orchestrator *)

Section OutputFacts.
Import Text Js Analyzer Path Orchestrator Notions.







End OutputFacts.

Section CommentFacts.
Import Text Js Analyzer Path Orchestrator Notions.

Lemma every_map_chars_from P Q f s :
  (forall c, Q c = true -> P (f c) = true) ->
  every Q s = true -> every P (map_chars f s) = true.
Proof.
  intros Hf. induction s as [|c s IH]; cbn [every map_chars]; [reflexivity|].
  intros H. apply andb_prop in H as [Hc Hs]. now rewrite (Hf c Hc), IH.
Qed.

Lemma every_true s : every (fun _ => true) s = true.
Proof. induction s as [|c s IH]; cbn; auto. Qed.

Lemma every_collapseSpaces P s :
  P " "%char = true -> every P s = true -> every P (collapseSpaces s) = true.
Proof.
  intros Hsp. induction s as [|c s IH]; [reflexivity|].
  cbn [every]. intros H. apply andb_prop in H as [Hc Hs]. specialize (IH Hs).
  cbn [collapseSpaces]. destruct (is_space c).
  - destruct s as [|d s']; [cbn; now rewrite Hsp|].
    destruct (is_space d); [exact IH|]. cbn [every]. now rewrite Hsp, IH.
  - cbn [every]. now rewrite Hc, IH.
Qed.

Lemma every_trimStart P s : every P s = true -> every P (trimStart s) = true.
Proof.
  induction s as [|c s IH]; [reflexivity|]. cbn [every trimStart].
  intros H. destruct (is_space c); [|exact H].
  apply andb_prop in H as [_ Hs]. auto.
Qed.

Lemma every_trimEnd P s : every P s = true -> every P (trimEnd s) = true.
Proof.
  induction s as [|c s IH]; [reflexivity|]. cbn [every trimEnd].
  intros H. apply andb_prop in H as [Hc Hs]. specialize (IH Hs).
  destruct (trimEnd s) as [|d r].
  - destruct (is_space c); [reflexivity|]. cbn. now rewrite Hc.
  - cbn [every] in *. now rewrite Hc.
Qed.

(** X6. The comment [setMacMetadataXattr] puts between the double quotes of
    its AppleScript holds no double quote, backslash, line feed, carriage
    return or tab, whatever the summary it is made from. *)
Theorem cleanSummary_is_script_safe (text : string) :
  every scriptSafe (cleanSummary text) = true.
Proof.
  unfold cleanSummary, trim.
  apply every_trimEnd, every_trimStart, every_collapseSpaces; [reflexivity|].
  apply (every_map_chars_from _
           (fun c => negb ((code c =? 34)%N || (code c =? 92)%N))).
  - intros c. destruct c as [[] [] [] [] [] [] [] []]; vm_compute; congruence.
  - apply (every_map_chars_from _ (fun _ => true)); [|apply every_true].
    intros c _. destruct c as [[] [] [] [] [] [] [] []]; reflexivity.
Qed.

Lemma inked_append_r x y : inked y = true -> inked (x +:+ y) = true.
Proof.
  intros Hy. induction x as [|c x IH]; [now rewrite append_nil|].
  rewrite append_cons. cbn [inked]. rewrite IH. apply orb_true_r.
Qed.

Lemma inked_map_chars f s :
  (forall c, is_space c = false -> is_space (f c) = false) ->
  inked s = true -> inked (map_chars f s) = true.
Proof.
  intros Hf. induction s as [|c s IH]; cbn [inked map_chars]; [auto|].
  intros H. apply orb_prop in H as [H|H].
  - apply negb_true_iff in H. now rewrite (Hf c H).
  - rewrite (IH H). apply orb_true_r.
Qed.

Lemma inked_collapseSpaces s : inked (collapseSpaces s) = inked s.
Proof.
  induction s as [|c s IH]; [reflexivity|]. cbn [collapseSpaces inked].
  destruct (is_space c) eqn:Ec; cbn [negb orb].
  - destruct s as [|d s']; [reflexivity|].
    destruct (is_space d) eqn:Ed; [exact IH|].
    cbn [inked]. rewrite IH. reflexivity.
  - cbn [inked]. now rewrite Ec.
Qed.

Lemma inked_trimStart s : inked (trimStart s) = inked s.
Proof.
  induction s as [|c s IH]; [reflexivity|]. cbn [trimStart inked].
  destruct (is_space c) eqn:Ec; cbn [negb orb]; [exact IH|].
  cbn [inked]. now rewrite Ec.
Qed.

Lemma inked_trimEnd s : inked (trimEnd s) = inked s.
Proof.
  induction s as [|c s IH]; [reflexivity|]. cbn [trimEnd inked].
  rewrite <- IH. destruct (trimEnd s) as [|d r].
  - destruct (is_space c) eqn:Ec; [reflexivity|]. cbn [inked]. now rewrite Ec.
  - reflexivity.
Qed.

Lemma inked_trim s : inked (trim s) = inked s.
Proof. unfold trim. now rewrite inked_trimEnd, inked_trimStart. Qed.

Lemma inked_nonempty s : inked s = true -> s <> EmptyString.
Proof. now destruct s. Qed.

Lemma inked_cleanSummary text : inked text = true -> inked (cleanSummary text) = true.
Proof.
  intros H. unfold cleanSummary. rewrite inked_trim, inked_collapseSpaces.
  apply inked_map_chars.
  { intros c. destruct c as [[] [] [] [] [] [] [] []]; vm_compute; congruence. }
  apply inked_map_chars; [|exact H].
  intros c. destruct c as [[] [] [] [] [] [] [] []]; vm_compute; congruence.
Qed.

Lemma analyse_comment JSON_parse ToString ext videoPath n s comment :
  analyse JSON_parse ToString ext videoPath = Ok (n, s, comment) ->
  inked comment = true
  /\ exists short, n = short +:+ extname videoPath
                   /\ (2 <= String.length short)%nat.
Proof.
  unfold analyse. intros H.
  apply bind_ok in H as (a & _ & H). apply bind_ok in H as (t & _ & H).
  apply bind_ok in H as (more & _ & H). apply bind_ok in H as (imp & _ & H).
  apply bind_ok in H as (short & Hs & H). injection H as <- <- <-. split.
  - apply inked_append_r.
    change (String "010" (String "010" EmptyString) +:+ ?x)
      with (String "010" (String "010" x)).
    cbn [inked]. rewrite orb_true_iff. right. rewrite orb_true_iff. right.
    reflexivity.
  - exists short. split; [reflexivity|].
    unfold generateShortName in Hs. apply bind_ok in Hs as (reply & _ & Hs).
    destruct reply as [content|]; [|discriminate]. injection Hs as <-.
    rewrite !length_append. cbn. lia.
Qed.

(** X7. After a run that processed a clip and wrote its comment, the clip
    under its new name carries a marker: a later run without [--force]
    whose Finder query succeeds skips it and changes nothing. *)
Theorem processed_clip_is_skipped_next
    (JSON_parse : string -> option json) (ToString : json -> string)
    (ext later : externals) (videoPath : path) (force : bool) (w w' : world)
    (n : string) :
  processVideo JSON_parse ToString ext videoPath force w
    = (Ok (Processed n), w') ->
  finder_set_ok ext = true ->
  finder_get_ok later = true ->
  processVideo JSON_parse ToString later (join (dirname videoPath) n) false w'
  = (Ok Skipped, w').
Proof.
  intros H Hset Hget.
  apply processVideo_inv in H as (_ & s & comment & Ha & Hc).
  apply analyse_comment in Ha as [Hink _].
  apply commit_inv in Hc as (_ & _ & _ & _ & _ & old & _ & ->).
  unfold processVideo.
  assert (hasMetadata later
            (committed ext videoPath n s comment old w)
            (join (dirname videoPath) n) = true) as ->; [|reflexivity].
  apply hasMetadata_spec. split; [exact Hget|].
  exists (cleanSummary comment). split.
  - unfold committed. cbn [files]. rewrite Hset. apply lookup_insert_eq.
  - apply inked_nonempty. rewrite inked_trim. now apply inked_cleanSummary.
Qed.

Lemma processed_clip_is_skipped_next_witness :
  exists w',
    processVideo Samples.parse Samples.show Samples.services Samples.clip
      false Samples.freshWorld
    = (Ok (Processed "5_beach-sunset-walk-k3x9.mov"), w')
    /\ processVideo Samples.parse Samples.show Samples.services
         ["videos"; "5_beach-sunset-walk-k3x9.mov"] false w'
       = (Ok Skipped, w').
Proof.
  eexists. split; [reflexivity|].
  apply (processed_clip_is_skipped_next Samples.parse Samples.show
           Samples.services Samples.services Samples.clip false
           Samples.freshWorld _ "5_beach-sunset-walk-k3x9.mov");
    reflexivity.
Defined.

End CommentFacts.

Section RenameFacts.
Import Text Js Analyzer Path Orchestrator Notions.

Lemma fromLastDot_shape s e :
  fromLastDot s = Some e ->
  exists e', e = String "." e' /\ fromLastDot e' = None.
Proof.
  induction s as [|c s IH]; cbn [fromLastDot]; [discriminate|].
  destruct (fromLastDot s) as [e0|] eqn:E.
  - intros [= <-]. auto.
  - destruct (Ascii.eqb c ".") eqn:Ec; [|discriminate].
    apply Ascii.eqb_eq in Ec as ->. intros [= <-]. eauto.
Qed.

Lemma fromLastDot_suffix x e' :
  fromLastDot e' = None ->
  fromLastDot (x +:+ String "." e') = Some (String "." e').
Proof.
  intros He. induction x as [|c x IH].
  - rewrite append_nil. cbn [fromLastDot]. now rewrite He.
  - rewrite append_cons. cbn [fromLastDot]. now rewrite IH.
Qed.

Lemma basename_join dir name : basename (join dir name) = name.
Proof. apply last_last. Qed.

Lemma extname_kept dir videoPath short :
  extname videoPath <> EmptyString ->
  (2 <= String.length short)%nat ->
  extname (join dir (short +:+ extname videoPath)) = extname videoPath.
Proof.
  intros He Hl.
  assert (exists e', extname videoPath = String "." e'
                     /\ fromLastDot e' = None) as (e' & Hx & Hn).
  { unfold extname in *. destruct (basename videoPath) as [|c rest];
      [contradiction|].
    destruct (String.eqb (String c rest) ".."); [contradiction|].
    destruct (fromLastDot rest) as [e|] eqn:E; [|contradiction].
    now apply fromLastDot_shape in E. }
  rewrite Hx. unfold extname. rewrite basename_join.
  destruct short as [|c0 [|c1 s1]]; cbn [String.length] in Hl; try lia.
  rewrite append_cons.
  destruct (String.eqb (String c0 (String c1 s1 +:+ String "." e')) "..")
    eqn:E.
  - apply String.eqb_eq in E. apply (f_equal String.length) in E.
    cbn [String.length] in E. rewrite length_append in E.
    cbn [String.length] in E. lia.
  - now rewrite fromLastDot_suffix.
Qed.

(** X8. A processed clip stays in its directory and keeps its extension:
    the new name is the generated short name followed by the old extension,
    and when the old name had an extension, it is the extension of the new
    name. *)
Theorem rename_keeps_extension
    (JSON_parse : string -> option json) (ToString : json -> string)
    (ext : externals) (videoPath : path) (force : bool) (w w' : world)
    (n : string) :
  processVideo JSON_parse ToString ext videoPath force w
    = (Ok (Processed n), w') ->
  let newPath := join (dirname videoPath) n in
  dirname newPath = dirname videoPath
  /\ is_Some (files w' !! newPath)
  /\ (exists short, n = short +:+ extname videoPath)
  /\ (extname videoPath <> EmptyString -> extname newPath = extname videoPath).
Proof.
  intros H newPath.
  apply processVideo_inv in H as (_ & s & comment & Ha & Hc).
  apply analyse_comment in Ha as (_ & short & -> & Hl).
  apply commit_inv in Hc as (_ & _ & _ & _ & _ & old & _ & ->).
  split; [apply dirname_join|]. split.
  - unfold committed. cbn [files]. fold newPath.
    destruct (finder_set_ok ext); rewrite lookup_insert_eq; eauto.
  - split; [eauto|]. intros He. now apply extname_kept.
Qed.

Lemma rename_keeps_extension_witness :
  extname ["videos"; "5_beach-sunset-walk-k3x9.mov"] = ".mov".
Proof.
  destruct (rename_keeps_extension Samples.parse Samples.show Samples.services
              Samples.clip false Samples.freshWorld _
              "5_beach-sunset-walk-k3x9.mov" eq_refl) as (_ & _ & _ & H).
  apply H. discriminate.
Defined.

End RenameFacts.

(** ** The batch of the analysis *)

Section DriverFacts.
Import Text Js Analyzer Path Orchestrator Notions Driver.

Variable JSON_parse : string -> option json.
Variable ToString : json -> string.

Lemma processVideo_throw_files ext videoPath force w e w' :
  processVideo JSON_parse ToString ext videoPath force w = (Throw e, w') ->
  files w' = files w.
Proof.
  unfold processVideo. destruct (_ && _)%bool; [discriminate|].
  destruct (analyse _ _ ext videoPath) as [[[n s] comment]|];
    [|now intros [= _ <-]].
  unfold commit, writeSummaryFile, rename.
  destruct (negb (append_ok ext)); [now intros [= _ <-]|].
  destruct (match summary_json w with NotArray => None | _ => _ end)
    as [jsonContent|]; [|now intros [= _ <-]].
  destruct (negb (write_ok ext)); [now intros [= _ <-]|].
  cbn [files]. destruct (files w !! videoPath); [|now intros [= _ <-]].
  destruct (rename_ok ext); [discriminate | now intros [= _ <-]].
Qed.

Lemma processEach_first_failure ext force before file after w os w1 e w2 :
  processEach JSON_parse ToString ext force before w = (Ok os, w1) ->
  processVideo JSON_parse ToString (service ext file) file force w1
    = (Throw e, w2) ->
  processEach JSON_parse ToString ext force (before ++ file :: after) w
  = (Throw e, w2).
Proof.
  revert w os. induction before as [|f before IH]; intros w os;
    cbn [processEach app].
  - intros [= _ <-] H. now rewrite H.
  - destruct (processVideo _ _ (service ext f) f force w) as [[o|m] w0];
      [|discriminate].
    destruct (processEach _ _ ext force before w0) as [[os'|m] w0'] eqn:E;
      [|discriminate].
    intros [= _ <-] H. now rewrite (IH _ _ E H).
Qed.

End DriverFacts.

Section DriverClaims.
Import Text Js Analyzer Path Orchestrator Notions Driver.

(** X9. The analysis batch has no per-file error handling: when
    [processVideo] throws for a file, the loop ends with that error, the
    files listed after it are not processed, and the failing call itself
    has renamed nothing and written no comment. *)
Theorem first_failure_ends_analysis
    (JSON_parse : string -> option json) (ToString : json -> string)
    (ext : batch) (force : bool) (before after : list path) (file : path)
    (w w1 w2 : world) (os : list outcome) (e : string) :
  processEach JSON_parse ToString ext force before w = (Ok os, w1) ->
  processVideo JSON_parse ToString (service ext file) file force w1
    = (Throw e, w2) ->
  processEach JSON_parse ToString ext force (before ++ file :: after) w
    = (Throw e, w2)
  /\ files w2 = files w1.
Proof.
  intros Hb Hf. split.
  - eapply processEach_first_failure; eauto.
  - eapply processVideo_throw_files; eauto.
Qed.

Lemma first_failure_ends_analysis_witness :
  exists e w2,
    processEach Samples.parse Samples.show Scenarios.stuck false
      ([] ++ Samples.clip :: [["videos"; "IMG_0043.mov"]]) Samples.freshWorld
    = (Throw e, w2)
    /\ files w2 = files Samples.freshWorld.
Proof.
  eexists. eexists.
  apply (first_failure_ends_analysis Samples.parse Samples.show Scenarios.stuck
           false [] [["videos"; "IMG_0043.mov"]] Samples.clip
           Samples.freshWorld Samples.freshWorld _ [] _ eq_refl eq_refl).
Defined.

End DriverClaims.

Section StampFacts.
Import Text Js Analyzer Path Orchestrator Notions Driver.

Lemma setTimestampComment_stores ext file w :
  summary_txt (setTimestampComment ext file w) = summary_txt w
  /\ summary_json (setTimestampComment ext file w) = summary_json w.
Proof.
  unfold setTimestampComment.
  destruct (finder_set_ok _); [|easy]. now destruct (files w !! file).
Qed.

Lemma setTimestampComment_exists ext file w k :
  is_Some (files (setTimestampComment ext file w) !! k)
  <-> is_Some (files w !! k).
Proof.
  unfold setTimestampComment.
  destruct (finder_set_ok _); [|easy].
  destruct (files w !! file) eqn:E; [|easy]. cbn [files].
  destruct (decide (file = k)) as [->|Hne].
  - rewrite lookup_insert_eq, E. split; eauto.
  - now rewrite lookup_insert_ne.
Qed.

Lemma setTimestampComment_sets ext file w :
  is_Some (files w !! file) ->
  finder_set_ok (service ext file) = true ->
  stamped ext (setTimestampComment ext file w) file.
Proof.
  intros [c Hc] Hok. unfold stamped, setTimestampComment.
  rewrite Hok, Hc. cbn [files]. apply lookup_insert_eq.
Qed.

Lemma setTimestampComment_keeps ext file w k :
  stamped ext w k -> stamped ext (setTimestampComment ext file w) k.
Proof.
  unfold stamped, setTimestampComment. intros Hk.
  destruct (finder_set_ok _); [|easy].
  destruct (files w !! file) eqn:E; [|easy]. cbn [files].
  destruct (decide (file = k)) as [->|Hne].
  - apply lookup_insert_eq.
  - now rewrite lookup_insert_ne.
Qed.

Lemma stamp_all ext todo w :
  let w' := foldl (fun w' file => setTimestampComment ext file w') w todo in
  summary_txt w' = summary_txt w
  /\ summary_json w' = summary_json w
  /\ (forall k, is_Some (files w' !! k) <-> is_Some (files w !! k))
  /\ (forall k, stamped ext w k -> stamped ext w' k)
  /\ (forall k, k ∈ todo -> is_Some (files w !! k) ->
        finder_set_ok (service ext k) = true -> stamped ext w' k).
Proof.
  revert w. induction todo as [|f todo IH]; intros w; cbn [foldl].
  - repeat split; auto. intros k Hk. now apply elem_of_nil in Hk.
  - destruct (IH (setTimestampComment ext f w)) as (Ht & Hj & He & Hs & Ha).
    destruct (setTimestampComment_stores ext f w) as [Ht0 Hj0].
    split; [congruence|]. split; [congruence|]. split.
    { intros k. rewrite He. apply setTimestampComment_exists. }
    split.
    { intros k Hk. now apply Hs, setTimestampComment_keeps. }
    intros k Hk Hex Hok. apply elem_of_cons in Hk as [->|Hk].
    + now apply Hs, setTimestampComment_sets.
    + apply Ha; auto. now apply setTimestampComment_exists.
Qed.

Lemma join_dirname_basename k :
  k <> [] -> join (dirname k) (basename k) = k.
Proof.
  intros Hk. unfold join, dirname, basename.
  symmetry. now apply app_removelast_last.
Qed.

Lemma elem_of_listing dir mp4 w file :
  file ∈ listing dir mp4 w ->
  is_Some (files w !! file)
  /\ exists name, file = join dir name /\ wanted mp4 name = true.
Proof.
  unfold listing, readdir. intros H.
  apply list_elem_of_fmap in H as (name & -> & H).
  apply list_elem_of_filter in H as [Hw H].
  apply list_elem_of_fmap in H as (k & -> & H).
  apply list_elem_of_filter in H as [[Hd Hk] H].
  apply list_elem_of_fmap in H as ([k' v] & Hk' & H). cbn in Hk'. subst k'.
  apply elem_of_map_to_list in H. subst dir.
  rewrite (join_dirname_basename k Hk). split; [eauto|].
  exists (basename k). now rewrite (join_dirname_basename k Hk).
Qed.

Lemma stamp_inked s : inked ("File processed at: " +:+ s) = true.
Proof. reflexivity. Qed.

End StampFacts.

Section StampClaims.
Import Text Js Analyzer Path Orchestrator Notions Driver.

(** X10. [--comment-only] turns the files it lists into processed ones: it
    writes neither store and creates or removes no file, yet every listed
    file whose comment could be set is skipped by a later run without
    [--force], although it was never analysed. *)
Theorem comment_only_marks_files
    (JSON_parse : string -> option json) (ToString : json -> string)
    (ext : batch) (dir : path) (force mp4 : bool) (w : world) :
  listable ext = true ->
  exists w',
    processDirectory JSON_parse ToString ext dir force true mp4 w = (Ok [], w')
    /\ summary_txt w' = summary_txt w
    /\ summary_json w' = summary_json w
    /\ (forall k, is_Some (files w' !! k) <-> is_Some (files w !! k))
    /\ (forall file later,
          file ∈ listing dir mp4 w ->
          finder_set_ok (service ext file) = true ->
          finder_get_ok later = true ->
          processVideo JSON_parse ToString later file false w'
          = (Ok Skipped, w')).
Proof.
  intros Hl. unfold processDirectory. rewrite Hl. cbn [negb].
  eexists. split; [reflexivity|].
  destruct (stamp_all ext (listing dir mp4 w) w) as (Ht & Hj & He & _ & Ha).
  split; [exact Ht|]. split; [exact Hj|]. split; [exact He|].
  intros file later Hin Hset Hget.
  apply elem_of_listing in Hin as Hex. destruct Hex as [Hex _].
  specialize (Ha file Hin Hex Hset). unfold stamped in Ha.
  unfold processVideo, hasMetadata. rewrite Hget, Ha. cbn [negb andb].
  destruct (trim _) eqn:E; [|reflexivity].
  exfalso. eapply inked_nonempty; [|exact E].
  rewrite inked_trim. apply stamp_inked.
Qed.

Lemma comment_only_marks_files_witness :
  exists w',
    processDirectory Samples.parse Samples.show Scenarios.stuck Samples.videos
      false true false Samples.freshWorld = (Ok [], w')
    /\ processVideo Samples.parse Samples.show Samples.services Samples.clip
         false w' = (Ok Skipped, w').
Proof.
  destruct (comment_only_marks_files Samples.parse Samples.show Scenarios.stuck
              Samples.videos false false Samples.freshWorld eq_refl)
    as (w' & Hrun & _ & _ & _ & Hskip).
  exists w'. split; [exact Hrun|].
  apply Hskip; [|reflexivity|reflexivity].
  assert (listing Samples.videos false Samples.freshWorld = [Samples.clip])
    as -> by reflexivity.
  apply list_elem_of_here.
Defined.

End StampClaims.

(** ** From the compression to the analysis *)

Section FilterFacts.
Import Text Path Driver.

Lemma endsWith_split s p : endsWith s p = true -> exists a, s = a +:+ p.
Proof.
  induction s as [|c s IH]; cbn [endsWith]; intros H.
  - rewrite orb_false_r in H. apply String.eqb_eq in H as <-.
    now exists EmptyString.
  - destruct (String.eqb (String c s) p) eqn:E.
    + apply String.eqb_eq in E as <-. exists EmptyString.
      now rewrite append_nil.
    + cbn [orb] in H. destruct (IH H) as [a ->]. exists (String c a).
      now rewrite append_cons.
Qed.

(** X11. What the compression hands to the analysis when the two run as
    [squish-and-define] runs them, with [--clobber] and then [--mp4]. The
    compression selects exactly the names the analysis lists without
    [--mp4], and none that it lists with it. A selected name that ends in
    [.mov] is replaced by a name the analysis then lists; a selected name
    with another spelling of the extension keeps its name, which the
    analysis does not list. *)
Theorem compressed_names_reach_the_analysis (dir : path) (name : string) :
  wanted false name = Compressor.selected name
  /\ (Compressor.selected name = true ->
      let final := replaceMovSuffix (join dir name) in
      wanted true name = false
      /\ dirname final = dir
      /\ (endsWith name ".mov" = true -> wanted true (basename final) = true)
      /\ (endsWith name ".mov" = false ->
          final = join dir name /\ wanted true (basename final) = false)).
Proof.
  split; [reflexivity|]. intros Hsel final.
  assert (wanted true name = false) as Hnot.
  { unfold wanted, fileExtension, Compressor.selected in *.
    destruct (endsWith (toLowerCase name) ".mp4") eqn:E; [|reflexivity].
    pose proof (endsWith_unique _ _ _ Hsel E eq_refl). discriminate. }
  unfold final. rewrite replaceMovSuffix_join, dirname_join, basename_join.
  split; [exact Hnot|]. split; [reflexivity|]. split.
  - intros Hmov. apply endsWith_split in Hmov as [a ->].
    rewrite replaceTrailing_append. unfold wanted, fileExtension, toLowerCase.
    apply (endsWith_map_chars lower_char (a +:+ ".mp4") ".mp4").
    apply endsWith_append.
  - intros Hmov. now rewrite replaceTrailing_none.
Qed.

Lemma compressed_names_reach_the_analysis_witness :
  wanted true (basename (replaceMovSuffix ["videos"; "a.mov"])) = true
  /\ wanted true (basename (replaceMovSuffix ["videos"; "A.MOV"])) = false.
Proof.
  split.
  - apply (compressed_names_reach_the_analysis ["videos"] "a.mov");
      reflexivity.
  - apply (compressed_names_reach_the_analysis ["videos"] "A.MOV");
      reflexivity.
Defined.

End FilterFacts.

(** ** The compression stage: the scratch folder and the retries *)

Section ScratchFacts.
Import Text Js Path Compressor.

Implicit Types (fs : fsys) (p q k : path).

Lemma oneAttempt_scratch a cwd inputPath outputPath fs fs' k :
  oneAttempt a cwd inputPath outputPath fs = Completed fs' ->
  inside (scratch cwd) k -> fs' !! k = None.
Proof.
  unfold oneAttempt.
  destruct (_ && _)%bool; [discriminate|].
  destruct (match fs !! inputPath with None => _ | Some _ => _ end);
    [discriminate|].
  destruct (ffprobe_error a); [discriminate|].
  destruct (stat_error a); [discriminate|].
  destruct (fs_ensureDir (scratch cwd) fs) as [fs1|m]; [|discriminate].
  destruct (encode a inputPath outputPath (fs_emptyDir (scratch cwd) fs1))
    as [[[]|m] fs3]; [|discriminate].
  intros [= <-] Hk. now rewrite lookup_fs_remove, decide_True.
Qed.

Lemma compressVideo_scratch ext cwd inputPath outputPath k fuel :
  inside (scratch cwd) k ->
  forall retryCount fs fs' t,
    MAX_RETRIES - retryCount <= fuel ->
    compressVideo ext cwd inputPath outputPath retryCount fs = (Ok tt, fs', t) ->
    fs' !! k = None.
Proof.
  intros Hk.
  induction fuel as [|fuel IH]; intros retryCount fs fs' t Hfuel;
    rewrite compressVideo_body;
    pose proof (oneAttempt_scratch (ext retryCount) cwd inputPath outputPath
                  fs) as Hone;
    destruct (oneAttempt _ _ _ _ _) as [fs1|m fs1|s m fs1];
    try discriminate;
    try (intros [= <- <-]; now apply Hone);
    (destruct (decide _) as [Hlt|Hge]; [|discriminate]);
    try (unfold MAX_RETRIES in *; lia);
    (destruct (worthRetrying s m); [|discriminate]).
  specialize (IH (S retryCount) fs1).
  destruct (compressVideo ext cwd inputPath outputPath (S retryCount) fs1)
    as [[r fs''] t']. intros [= -> -> <-].
  apply (IH fs' t'); [unfold MAX_RETRIES in *; lia | reflexivity].
Qed.

Lemma oneAttempt_missing a cwd inputPath outputPath fs :
  fs !! inputPath = None ->
  (looksRemovable inputPath && negb (drive_accessible a))%bool = false ->
  oneAttempt a cwd inputPath outputPath fs
  = Caught AtAccess "ENOENT: no such file or directory, access" fs.
Proof. intros Hin Hd. unfold oneAttempt. now rewrite Hd, Hin. Qed.

Lemma volumes_look_removable volume rest :
  looksRemovable ("Volumes" :: volume :: rest) = true.
Proof.
  unfold looksRemovable.
  assert (startsWith (render ("Volumes" :: volume :: rest)) "/Volumes/" = true)
    as ->; [|apply orb_true_r].
  cbn [render]. unfold startsWith. rewrite !append_cons, !append_nil. cbn.
  now destruct (volume +:+ render rest).
Qed.


End ScratchFacts.

Section ScratchClaims.
Import Text Js Path Compressor.

(** X12. Whatever its outcome and however often it retries, [compressVideo]
    changes nothing outside the scratch folder [temp_processing] of the
    working directory except the output path. When it returns, nothing is
    left at or below the scratch folder (whatever was there before the
    call), the input was not inside it, and the output is a file unless it
    was placed inside the scratch folder. *)
Theorem compressVideo_footprint
    (ext : nat -> attempt) (cwd inputPath outputPath : path) (fs fs' : fsys)
    (r : result unit) (t : list event) :
  compressVideo ext cwd inputPath outputPath 0 fs = (r, fs', t) ->
  (forall k, ~ inside (scratch cwd) k -> k <> outputPath ->
             fs' !! k = fs !! k)
  /\ (r = Ok tt ->
      (forall k, inside (scratch cwd) k -> fs' !! k = None)
      /\ ~ inside (scratch cwd) inputPath
      /\ (~ inside (scratch cwd) outputPath ->
          exists data, fs' !! outputPath = Some (File data))).
Proof.
  intros H. split.
  - intros k Hs Ho.
    pose proof (compressVideo_frame ext cwd inputPath outputPath k MAX_RETRIES
                  Hs Ho 0 fs ltac:(lia)) as Hfr.
    now rewrite H in Hfr.
  - intros ->. split.
    + intros k Hk.
      apply (compressVideo_scratch ext cwd inputPath outputPath k MAX_RETRIES
               Hk 0 fs fs' t ltac:(lia) H).
    + apply (compressVideo_ok ext cwd inputPath outputPath MAX_RETRIES
               0 fs fs' t ltac:(lia) H).
Qed.

(** A scratch folder with a file of the user's in it. *)
Lemma compressVideo_footprint_witness :
  let fs := <[ ["work"; "temp_processing"; "notes.txt"] := File "keep" ]>
              (<[ ["work"; "temp_processing"] := Dir ]> Samples.disk) in
  exists fs',
    compressVideo (fun _ => Samples.encodes "mp4") Samples.workdir
      ["videos"; "a.mov"] ["videos"; "a.mp4"] 0 fs = (Ok tt, fs', [Started])
    /\ fs' !! ["videos"; "A.MOV"] = Some (File "AAAAAAAAAAAA")
    /\ fs' !! ["work"; "temp_processing"; "notes.txt"] = None.
Proof.
  intros fs.
  pose (fs' := <[ ["videos"; "a.mp4"] := File "mp4" ]> Samples.disk).
  assert (compressVideo (fun _ => Samples.encodes "mp4") Samples.workdir
            ["videos"; "a.mov"] ["videos"; "a.mp4"] 0 fs
          = (Ok tt, fs', [Started])) as Hrun by reflexivity.
  destruct (compressVideo_footprint _ _ _ _ _ _ _ _ Hrun) as [Hframe Hok].
  destruct (Hok eq_refl) as (Hscratch & _ & _).
  exists fs'. split; [exact Hrun|]. split.
  - rewrite Hframe; [reflexivity| |discriminate].
    unfold inside. intros [l Hl]. discriminate Hl.
  - apply Hscratch. exists ["notes.txt"]. reflexivity.
Defined.

(** X13. An input that does not exist is looked for four times, with three
    waits of [RETRY_DELAY] between, although the error then thrown speaks of
    3 attempts; the file system is as it was. *)
Theorem missing_input_is_retried
    (ext : nat -> attempt) (cwd inputPath outputPath : path) (fs : fsys) :
  fs !! inputPath = None ->
  (forall n, (looksRemovable inputPath
              && negb (drive_accessible (ext n)))%bool = false) ->
  exists m t,
    compressVideo ext cwd inputPath outputPath 0 fs
    = (Throw ("Failed to access input file after 3 attempts: " +:+ m), fs, t)
    /\ attemptsMade t = 4
    /\ t = [Started; Waited RETRY_DELAY; Started; Waited RETRY_DELAY;
            Started; Waited RETRY_DELAY; Started].
Proof.
  intros Hin Hd. eexists. eexists. split.
  - do 4 (rewrite compressVideo_body, oneAttempt_missing by auto;
          cbn [worthRetrying]).
    cbn. reflexivity.
  - split; reflexivity.
Qed.

Lemma missing_input_is_retried_witness :
  exists m t,
    compressVideo (fun _ => Samples.encodes "mp4") Samples.workdir
      ["videos"; "b.mov"] ["videos"; "b.mp4"] 0 Samples.disk
    = (Throw ("Failed to access input file after 3 attempts: " +:+ m),
       Samples.disk, t)
    /\ attemptsMade t = 4.
Proof.
  destruct (missing_input_is_retried (fun _ => Samples.encodes "mp4")
              Samples.workdir ["videos"; "b.mov"] ["videos"; "b.mp4"]
              Samples.disk eq_refl (fun _ => eq_refl))
    as (m & t & H & Hn & _).
  exists m, t. split; [exact H | exact Hn].
Defined.

(** X14. A path below [/Volumes/], or any path with a colon in it, whose
    drive [isDriveAccessible] finds unreachable makes [compressVideo] throw
    at once, at every retry count: no wait, no further attempt, nothing
    written. *)
Theorem unreachable_drive_fails_at_once
    (ext : nat -> attempt) (cwd inputPath outputPath : path)
    (retryCount : nat) (fs : fsys) :
  looksRemovable inputPath = true ->
  drive_accessible (ext retryCount) = false ->
  compressVideo ext cwd inputPath outputPath retryCount fs
  = (Throw ("Drive not accessible for " +:+ render inputPath), fs, [Started])
  /\ forall volume rest, looksRemovable ("Volumes" :: volume :: rest) = true.
Proof.
  intros Hl Hd. split; [|apply volumes_look_removable].
  rewrite compressVideo_body. unfold oneAttempt. now rewrite Hl, Hd.
Qed.

Lemma unreachable_drive_fails_at_once_witness :
  let unplugged :=
    {| drive_accessible := false;
       access_error := None;
       ffprobe_error := None;
       stat_error := None;
       ffmpeg := Encoded "mp4";
       enoent := "No such file or directory" |} in
  compressVideo (fun _ => unplugged) Samples.workdir
    ["Volumes"; "Card"; "a.mov"] ["Volumes"; "Card"; "a.mp4"] 0 Samples.disk
  = (Throw "Drive not accessible for /Volumes/Card/a.mov", Samples.disk,
     [Started]).
Proof.
  intros unplugged.
  apply (unreachable_drive_fails_at_once (fun _ => unplugged) Samples.workdir
           ["Volumes"; "Card"; "a.mov"] ["Volumes"; "Card"; "a.mp4"] 0
           Samples.disk eq_refl eq_refl).
Defined.

End ScratchClaims.

(** ** The compression batch *)

Section BatchFacts.
Import Text Js Path Compressor.

Implicit Types (fs : fsys) (p q k dir cwd : path) (name : string).



Lemma processFile_sibling ext cwd dir compressedDir force file fs :
  processFile ext cwd dir compressedDir force false file fs =
  if (negb force
      && bool_decide (is_Some (fs !! join compressedDir (outputName file))))%bool
  then (Ok AlreadyCompressed, fs, [])
  else
    match compressVideo (attempts ext file) cwd file
            (join compressedDir (outputName file)) 0 fs with
    | (Throw m, fs1, t) => (Ok (FailedFile m), fs1, t)
    | (Ok _, fs1, t) => (Ok Squished, fs1, t)
    end.
Proof. reflexivity. Qed.

Lemma processFile_throw ext cwd dir compressedDir force clobber file fs m fs' t :
  processFile ext cwd dir compressedDir force clobber file fs = (Throw m, fs', t) ->
  clobber = true /\ fs' = fs /\ t = []
  /\ m = "EEXIST: file already exists, mkdir"
  /\ exists data, fs !! join dir "temp_output" = Some (File data).
Proof.
  destruct clobber.
  - unfold processFile, fs_ensureDir.
    destruct (fs !! join dir "temp_output") as [[data|]|] eqn:E;
      cbn [bind andb negb].
    + intros [= <- <- <-]. eauto 10.
    + destruct (compressVideo _ _ _ _ _ _) as [[[u|m1] fs1] t1];
        [|discriminate].
      destruct (replaceOriginal _ _ _) as [[u'|m2] fs2]; discriminate.
    + destruct (compressVideo _ _ _ _ _ _) as [[[u|m1] fs1] t1];
        [|discriminate].
      destruct (replaceOriginal _ _ _) as [[u'|m2] fs2]; discriminate.
  - rewrite processFile_sibling.
    destruct (_ && _)%bool; [discriminate|].
    destruct (compressVideo _ _ _ _ _ _) as [[[u|m1] fs1] t1]; discriminate.
Qed.

Lemma processFiles_result ext cwd dir compressedDir force clobber files :
  forall fs,
    match processFiles ext cwd dir compressedDir force clobber files fs with
    | (Ok hs, _, _) => length hs = length files
    | (Throw m, fs', _) =>
        clobber = true /\ m = "EEXIST: file already exists, mkdir"
        /\ exists data, fs' !! join dir "temp_output" = Some (File data)
    end.
Proof.
  induction files as [|file rest IH]; intros fs; cbn [processFiles];
    [reflexivity|].
  destruct (processFile ext cwd dir compressedDir force clobber file fs)
    as [[[h|m] fs1] t] eqn:E.
  - specialize (IH fs1).
    destruct (processFiles ext cwd dir compressedDir force clobber rest fs1)
      as [[[hs|m] fs2] t']; [|exact IH].
    cbn [length]. now rewrite IH.
  - apply processFile_throw in E as (Hc & -> & _ & Hm & Hd). auto.
Qed.

Lemma elem_of_readdir dir fs name :
  name ∈ readdir dir fs <-> is_Some (fs !! join dir name).
Proof.
  unfold readdir. rewrite list_elem_of_fmap. split.
  - intros (k & -> & H). apply list_elem_of_filter in H as [[Hd Hk] H].
    apply list_elem_of_fmap in H as ([k' v] & Hk' & H). cbn in Hk'. subst k'.
    apply elem_of_map_to_list in H. subst dir.
    rewrite (join_dirname_basename k Hk). eauto.
  - intros [v Hv]. exists (join dir name). split.
    + unfold basename, join. now rewrite last_last.
    + apply list_elem_of_filter. split.
      * split; [apply dirname_join|]. unfold join. now destruct dir.
      * apply list_elem_of_fmap. exists (join dir name, v). split; [reflexivity|].
        now apply elem_of_map_to_list.
Qed.

Lemma elem_of_candidates dir fs file :
  file ∈ candidates dir fs <->
  exists name, file = join dir name /\ selected name = true
               /\ is_Some (fs !! join dir name).
Proof.
  unfold candidates. rewrite list_elem_of_fmap. split.
  - intros (name & -> & H). apply list_elem_of_filter in H as [Hs H].
    apply elem_of_readdir in H. eauto.
  - intros (name & -> & Hs & H). exists name. split; [reflexivity|].
    apply list_elem_of_filter. split; [exact Hs|]. now apply elem_of_readdir.
Qed.

Lemma bySize_sorted ext files :
  StronglySorted (bySize ext) (merge_sort (bySize ext) files).
Proof.
  apply StronglySorted_merge_sort.
  - intros a b c. unfold bySize. lia.
  - intros a b. unfold bySize. lia.
Qed.

Lemma take_of_sorted ext files n :
  let sorted := merge_sort (bySize ext) files in
  (take n sorted ++ drop n sorted)%list ≡ₚ files
  /\ (forall a b, a ∈ take n sorted -> b ∈ drop n sorted ->
                  stat_size ext a <= stat_size ext b)
  /\ StronglySorted (bySize ext) (take n sorted)
  /\ length (take n sorted) = min n (length files).
Proof.
  intros sorted. pose proof (bySize_sorted ext files) as Hs.
  fold sorted in Hs. rewrite <- (take_drop n sorted) in Hs.
  split; [rewrite take_drop; apply merge_sort_Permutation|].
  split; [intros a b Ha Hb; eapply (StronglySorted_app_1_elem_of _ _ _ _ _ Hs);
          eauto|].
  split; [eapply StronglySorted_app_1_l; eauto|].
  rewrite length_take. unfold sorted.
  now rewrite (Permutation_length (merge_sort_Permutation (bySize ext) files)).
Qed.

End BatchFacts.

Section BatchClaims.
Import Text Js Path Compressor.



(** X16. A directory that exists is refused with the message of line 499
    exactly when it holds no entry whose name, in lower case, ends in
    [.mov]; nothing is created before that exit. *)
Theorem nothing_to_compress
    (ext : batch) (cwd dir : path) (force : bool) (limit : option Z)
    (clobber : bool) (fs : fsys) :
  fs !! dir = Some Dir ->
  (forall name, is_Some (fs !! join dir name) -> selected name = false)
  <-> processDirectory ext cwd dir force limit clobber fs
      = (Throw "No MOV files found to process", fs, []).
Proof.
  intros Hdir. unfold processDirectory. rewrite Hdir. split.
  - intros Hnone. destruct (candidates dir fs) as [|f l] eqn:E; [reflexivity|].
    assert (f ∈ candidates dir fs) as Hf by (rewrite E; apply list_elem_of_here).
    apply elem_of_candidates in Hf as (name & _ & Hs & Hex).
    rewrite (Hnone name Hex) in Hs. discriminate.
  - intros Hrun name Hex.
    destruct (selected name) eqn:Hs; [exfalso|reflexivity].
    assert (join dir name ∈ candidates dir fs) as Hf
      by (apply elem_of_candidates; eauto).
    destruct (candidates dir fs) as [|f l] eqn:E;
      [now apply elem_of_nil in Hf|].
    cbn [length Nat.eqb] in Hrun.
    destruct clobber.
    + pose proof (processFiles_result ext cwd dir dir force true
                    (filesToProcess ext limit (f :: l)) fs) as Hp.
      rewrite Hrun in Hp. destruct Hp as (_ & Hm & _). discriminate.
    + unfold fs_ensureDir in Hrun.
      destruct (fs !! join dir "compressed") as [[data|]|];
        cbn [bind] in Hrun; [discriminate| |].
      * pose proof (processFiles_result ext cwd dir (join dir "compressed")
                      force false (filesToProcess ext limit (f :: l)) fs) as Hp.
        rewrite Hrun in Hp. destruct Hp as (Hc & _). discriminate.
      * pose proof (processFiles_result ext cwd dir (join dir "compressed")
                      force false (filesToProcess ext limit (f :: l))
                      (<[join dir "compressed" := Dir]> fs)) as Hp.
        rewrite Hrun in Hp. destruct Hp as (Hc & _). discriminate.
Qed.

(** A directory with a text file only. *)
Lemma nothing_to_compress_witness :
  let fs := <[ ["videos"; "notes.txt"] := File "n" ]>
              (<[ ["videos"] := Dir ]> (∅ : fsys)) in
  processDirectory Samples.smooth Samples.workdir Samples.videos false None
    false fs
  = (Throw "No MOV files found to process", fs, []).
Proof.
  intros fs.
  apply (nothing_to_compress Samples.smooth Samples.workdir Samples.videos
           false None false fs eq_refl).
  intros name [v Hv]. unfold fs in Hv.
  destruct (decide (name = "notes.txt")) as [->|Hn]; [reflexivity|].
  rewrite lookup_insert_ne in Hv
    by (intros H; apply (join_inj ["videos"] ["videos"]) in H; congruence).
  rewrite lookup_insert_ne in Hv
    by (intros H; apply (f_equal (@length string)) in H; discriminate).
  rewrite lookup_empty in Hv. discriminate.
Defined.

(** X17. [--limit] chooses by size: the files processed are in ascending
    order of size, and none of them is larger than a file left out. A
    positive limit [n] keeps [n] files (all, when there are fewer), a
    negative one leaves out that many of the largest, and a limit of 0, like
    none, keeps every file. *)
Theorem limit_keeps_the_smallest
    (ext : batch) (limit : option Z) (files : list path) :
  let chosen := filesToProcess ext limit files in
  exists rest,
    (chosen ++ rest)%list ≡ₚ files
    /\ (forall a b, a ∈ chosen -> b ∈ rest ->
                    stat_size ext a <= stat_size ext b)
    /\ StronglySorted (bySize ext) chosen
    /\ match limit with
       | None | Some Z0 => rest = []
       | Some (Z.pos n) => length chosen = min (Pos.to_nat n) (length files)
       | Some (Z.neg n) => length chosen = length files - Pos.to_nat n
       end.
Proof.
  intros chosen. unfold chosen, filesToProcess.
  assert (exists rest,
            (merge_sort (bySize ext) files ++ rest)%list ≡ₚ files
            /\ (forall a b, a ∈ merge_sort (bySize ext) files -> b ∈ rest ->
                            stat_size ext a <= stat_size ext b)
            /\ StronglySorted (bySize ext) (merge_sort (bySize ext) files)
            /\ rest = []) as Hall.
  { exists []. rewrite app_nil_r.
    split; [apply merge_sort_Permutation|].
    split; [intros a b _ Hb; now apply elem_of_nil in Hb|].
    split; [apply bySize_sorted | reflexivity]. }
  destruct limit as [[|n|n]|]; try exact Hall.
  - unfold slice0. cbn [Z.ltb Z.compare].
    destruct (take_of_sorted ext files (Z.to_nat (Z.pos n)))
      as (Hp & Hle & Hs & Hlen).
    eexists. split; [exact Hp|]. split; [exact Hle|]. split; [exact Hs|].
    rewrite Hlen. now rewrite Z2Nat.inj_pos.
  - unfold slice0. cbn [Z.ltb Z.compare].
    destruct (take_of_sorted ext files
                (Z.to_nat (Z.of_nat (length (merge_sort (bySize ext) files))
                           + Z.neg n)))
      as (Hp & Hle & Hs & Hlen).
    eexists. split; [exact Hp|]. split; [exact Hle|]. split; [exact Hs|].
    rewrite Hlen.
    rewrite (Permutation_length (merge_sort_Permutation (bySize ext) files)).
    lia.
Qed.

(** X18. A file that fails does not end the batch: the loop handles every
    file it was given, one result each, unless, with [--clobber], it finds
    a file where its staging directory [temp_output] should be; only then
    does it throw, with that file still in place. *)
Theorem batch_handles_every_file
    (ext : batch) (cwd dir compressedDir : path) (force clobber : bool)
    (files : list path) (fs : fsys) :
  match processFiles ext cwd dir compressedDir force clobber files fs with
  | (Ok hs, _, _) => length hs = length files
  | (Throw m, fs', _) =>
      clobber = true
      /\ exists data, fs' !! tempOutput dir = Some (File data)
  end.
Proof.
  pose proof (processFiles_result ext cwd dir compressedDir force clobber
                files fs) as H.
  destruct (processFiles _ _ _ _ _ _ _ _) as [[[hs|m] fs'] t]; [exact H|].
  destruct H as (Hc & _ & Hd). auto.
Qed.

End BatchClaims.

(** ** The two stores over a batch *)

Section StoreFacts.
Import Text Js Analyzer Path Orchestrator Notions Driver.

Variable JSON_parse : string -> option json.
Variable ToString : json -> string.

Lemma processVideo_skipped ext videoPath force w w' :
  processVideo JSON_parse ToString ext videoPath force w = (Ok Skipped, w') ->
  w' = w.
Proof.
  unfold processVideo. destruct (_ && _)%bool; [now intros [= <-]|].
  destruct (analyse _ _ ext videoPath) as [[[n s] comment]|]; [|discriminate].
  unfold commit.
  destruct (writeSummaryFile _ _ _ _) as [[u|m] w1]; [|discriminate].
  destruct (rename _ _ _ _) as [[u'|m] w2]; discriminate.
Qed.

Lemma processVideo_processed ext videoPath force w n w' :
  processVideo JSON_parse ToString ext videoPath force w
    = (Ok (Processed n), w') ->
  exists entry,
    basename (resolved_path entry) = n
    /\ summary_txt w' = (summary_txt w ++ [entry])%list
    /\ summary_json w'
       = Records (priorRecords (summary_json w) ++ [entry])%list.
Proof.
  intros H. apply processVideo_inv in H as (_ & s & comment & _ & Hc).
  apply commit_inv in Hc as (_ & _ & _ & _ & _ & old & _ & ->).
  eexists. split; [|split; reflexivity]. cbn [resolved_path].
  apply basename_join.
Qed.

Lemma processEach_stores ext force todo :
  forall w os w',
    processEach JSON_parse ToString ext force todo w = (Ok os, w') ->
    length os = length todo
    /\ exists news,
         summary_txt w' = (summary_txt w ++ news)%list
         /\ (basename ∘ resolved_path) <$> news = newNames os
         /\ (news = [] -> w' = w)
         /\ (news <> [] ->
             summary_json w'
             = Records (priorRecords (summary_json w) ++ news)%list).
Proof.
  induction todo as [|file rest IH]; intros w os w'; cbn [processEach].
  - intros [= <- <-]. split; [reflexivity|]. exists [].
    rewrite app_nil_r. repeat split; auto. congruence.
  - destruct (processVideo _ _ (service ext file) file force w)
      as [[o|m] w1] eqn:E; [|discriminate].
    destruct (processEach _ _ ext force rest w1) as [[os'|m] w2] eqn:Er;
      [|discriminate].
    intros [= <- <-]. apply IH in Er as (Hlen & news & Ht & Hn & He & Hj).
    split; [cbn [length]; now rewrite Hlen|].
    destruct o as [|n].
    + apply processVideo_skipped in E as ->. exists news. auto.
    + apply processVideo_processed in E as (entry & Hb & Ht1 & Hj1).
      exists (entry :: news). split; [|split; [|split]].
      * rewrite Ht, Ht1, <- app_assoc. reflexivity.
      * cbn [newNames omap fmap list_fmap]. unfold newNames in Hn.
        cbn. rewrite Hb. f_equal. exact Hn.
      * discriminate.
      * intros _. destruct news as [|e news].
        -- rewrite (He eq_refl). exact Hj1.
        -- rewrite Hj by discriminate. rewrite Hj1. cbn [priorRecords].
           now rewrite <- app_assoc.
Qed.

End StoreFacts.

Section StoreClaims.
Import Text Js Analyzer Path Orchestrator Notions Driver.

(** X19. Over a batch that completes, the loop yields one outcome for each
    file, and the two stores stay in step: the text log gains one block for
    each processed file, in order and under the file's new name, and none
    for a skipped one; the JSON store then holds the records it could read
    before (none, when it was missing, blank or unparsable) followed by the
    same new records. A batch that skips every file changes nothing. *)
Theorem stores_stay_in_step
    (JSON_parse : string -> option json) (ToString : json -> string)
    (ext : batch) (force : bool) (todo : list path) (w w' : world)
    (os : list outcome) :
  processEach JSON_parse ToString ext force todo w = (Ok os, w') ->
  length os = length todo
  /\ exists news,
       summary_txt w' = (summary_txt w ++ news)%list
       /\ (basename ∘ resolved_path) <$> news = newNames os
       /\ (news = [] -> w' = w)
       /\ (news <> [] ->
           summary_json w'
           = Records (priorRecords (summary_json w) ++ news)%list).
Proof. apply processEach_stores. Qed.

Lemma stores_stay_in_step_witness :
  let run := processEach Samples.parse Samples.show Scenarios.steady false
               [Samples.clip] Samples.freshWorld in
  run.1 = Ok [Processed "5_beach-sunset-walk-k3x9.mov"]
  /\ exists entry,
       summary_txt run.2 = [entry] /\ summary_json run.2 = Records [entry].
Proof.
  intros run.
  destruct (stores_stay_in_step Samples.parse Samples.show Scenarios.steady
              false [Samples.clip] Samples.freshWorld run.2
              [Processed "5_beach-sunset-walk-k3x9.mov"] eq_refl)
    as (_ & news & Ht & Hn & _ & Hj).
  split; [reflexivity|].
  destruct news as [|e [|e' news]]; try discriminate Hn.
  exists e. split; [exact Ht|]. apply Hj. discriminate.
Defined.

End StoreClaims.

(** ** The transcription *)

Section TranscriptFacts.
Import Text Js Analyzer Path Orchestrator Notions.

(** X20. [transcribeAudio] is called only for a clip whose initial analysis
    asks for a transcript. For such a clip a failed transcription fails the
    clip before anything is written; for any other clip the outcome of
    [processVideo] does not depend on what the transcription would have
    done, and the record stores no transcript. *)
Theorem transcription_only_when_needed
    (JSON_parse : string -> option json) (ToString : json -> string)
    (ext : externals) (videoPath : path) (force : bool) (w : world)
    (a : AnalysisResult) :
  analyzeInitialFrame JSON_parse (probe ext) = Ok a ->
  (needsTranscript a = true ->
   forall e, transcription ext = Throw e ->
     (negb force && hasMetadata ext w videoPath)%bool = false ->
     processVideo JSON_parse ToString ext videoPath force w = (Throw e, w))
  /\ (needsTranscript a = false ->
      (forall t,
         processVideo JSON_parse ToString (withTranscription t ext) videoPath
           force w
         = processVideo JSON_parse ToString ext videoPath force w)
      /\ forall n s comment,
           analyse JSON_parse ToString ext videoPath = Ok (n, s, comment) ->
           transcript s = None).
Proof.
  intros Ha. split.
  - intros Hn e He Hskip. unfold processVideo. rewrite Hskip.
    unfold analyse. rewrite Ha. cbn [bind]. rewrite Hn, He. reflexivity.
  - intros Hn. split.
    + intros t. unfold processVideo, analyse.
      change (probe (withTranscription t ext)) with (probe ext).
      rewrite Ha. cbn [bind]. rewrite Hn. reflexivity.
    + intros n s comment. unfold analyse. rewrite Ha. cbn [bind]. rewrite Hn.
      cbn [bind]. intros H.
      apply bind_ok in H as (more & _ & H).
      apply bind_ok in H as (imp & _ & H).
      apply bind_ok in H as (short & _ & H).
      injection H as <- <- <-. reflexivity.
Qed.

(** The ten-second clip with no transcription service, and a clip of three
    seconds that needs no transcript. *)
Lemma transcription_only_when_needed_witness :
  processVideo Samples.parse Samples.show
    (withTranscription (Throw "401 Unauthorized") Samples.services)
    Samples.clip false Samples.freshWorld
  = (Throw "401 Unauthorized", Samples.freshWorld).
Proof.
  destruct (transcription_only_when_needed Samples.parse Samples.show
              (withTranscription (Throw "401 Unauthorized") Samples.services)
              Samples.clip false Samples.freshWorld _ eq_refl) as [H _].
  apply H; reflexivity.
Defined.

End TranscriptFacts.
